(** * Zero-shot classifier front end (app.py): label parsing, result shaping
      and the click handler, embedded and verified.

    Python values are modelled as follows.
    - [str] is a sequence of Unicode code points, here [list N].
    - [float] is an IEEE-754 value, here the Standard Library's [spec_float];
      [<] on floats is [SFltb], which is [false] whenever a NaN is involved.
    - a raised exception is a value of [PyException]; code that may raise
      lives in the monad [M], which also records the Streamlit calls made. *)

From Stdlib Require Import List NArith ZArith Bool Lia String Ascii.
From Stdlib Require Import Permutation Sorted.
From Stdlib Require Import Floats.SpecFloat.
Import ListNotations.

Local Open Scope N_scope.
Local Open Scope list_scope.

(* ===================================================================== *)
(** ** Python strings                                                     *)
(* ===================================================================== *)

Module PyStr.

Definition char := N.
Definition str := list char.

Definition LF : char := 10.      (* "\n" *)
Definition COMMA : char := 44.   (* "," *)

(** Code points of a literal whose characters are all below 256. *)
Fixpoint lit (s : string) : str :=
match s with
| EmptyString => []
| String a s' => N_of_ascii a :: lit s'
end.

(** [str.isspace] on one code point: the table CPython uses for
  [Py_UNICODE_ISSPACE], which is what [str.strip()] consults. *)
Definition isspace (c : char) : bool :=
((9 <=? c) && (c <=? 13))
|| ((28 <=? c) && (c <=? 32))
|| (c =? 133) || (c =? 160) || (c =? 5760)
|| ((8192 <=? c) && (c <=? 8202))
|| (c =? 8232) || (c =? 8233) || (c =? 8239) || (c =? 8287)
|| (c =? 12288).

(** [s.replace(old, new)] for one-character [old] and [new]. *)
Definition replace (old new : char) (s : str) : str :=
map (fun c => if c =? old then new else c) s.

(** [s.split(sep)] for a one-character separator: always at least one
  piece, empty pieces kept. *)
Fixpoint split (sep : char) (s : str) : list str :=
match s with
| [] => [[]]
| c :: s' =>
    if c =? sep then [] :: split sep s'
    else match split sep s' with
         | [] => [[c]]
         | p :: ps => (c :: p) :: ps
         end
end.

Fixpoint lstrip (s : str) : str :=
match s with
| [] => []
| c :: s' => if isspace c then lstrip s' else s
end.

Definition rstrip (s : str) : str := rev (lstrip (rev s)).

(** [s.strip()] *)
Definition strip (s : str) : str := rstrip (lstrip s).

(** [sep.join(l)] *)
Fixpoint join (sep : char) (l : list str) : str :=
match l with
| [] => []
| [p] => p
| p :: ps => p ++ sep :: join sep ps
end.

(** Truth value of a string: [bool(s)]. *)
Definition truthy (s : str) : bool :=
match s with [] => false | _ :: _ => true end.

Definition starts_with_space (s : str) : bool :=
match s with [] => false | c :: _ => isspace c end.

Definition ends_with_space (s : str) : bool := starts_with_space (rev s).

End PyStr.
Import PyStr.

(* ===================================================================== *)
(** ** Utilidades: parse_labels                                           *)
(* ===================================================================== *)

(** [parts = [p.strip() for p in raw.replace("\n", ",").split(",")]] *)
Definition parts (raw : str) : list str :=
  map strip (split COMMA (replace LF COMMA raw)).

(** [return [p for p in parts if p]] *)
Definition parse_labels (raw : str) : list str :=
  filter truthy (parts raw).

(** A label as the data model has it: non-empty, no surrounding whitespace. *)
Definition is_label (p : str) : Prop :=
  p <> [] /\ starts_with_space p = false /\ ends_with_space p = false.

(** The parser as the specification words it, step by step. *)
Definition parse_labels_spec (raw : str) : list str :=
  let commas := map (fun c => if c =? LF then COMMA else c) raw in
  let pieces := split COMMA commas in
  let trimmed := map strip pieces in
  filter (fun p => negb (match p with [] => true | _ => false end)) trimmed.


(* ===================================================================== *)
(** ** Built-ins used by the shaping step                                 *)
(* ===================================================================== *)

Module PyList.
Section Sorted.
Context {A K : Type}.
Variable lt : K -> K -> bool.    (* [<] on the keys *)
Variable key : A -> K.

(** One step of the insertion sort [list.sort] runs on short lists:
    [x] goes to the right of every element that is not greater than it;
    only [<] is ever asked. *)
Fixpoint insort (x : A) (l : list A) : list A :=
  match l with
  | [] => [x]
  | y :: l' => if lt (key x) (key y) then x :: l else y :: insort x l'
  end.

Definition sort_asc (l : list A) : list A :=
  fold_left (fun acc x => insort x acc) l [].

(** [sorted(l, key=key, reverse=reverse)]. CPython gets a stable
    descending order by reversing, sorting ascending, reversing back. *)
Definition sorted (l : list A) (reverse : bool) : list A :=
  if reverse then rev (sort_asc (rev l)) else sort_asc l.
End Sorted.

(** [zip(a, b)] stops at the shorter argument. *)
Definition zip {A B : Type} (a : list A) (b : list B) : list (A * B) :=
  combine a b.
End PyList.
Import PyList.

(* ===================================================================== *)
(** ** Values of the application                                          *)
(* ===================================================================== *)

Definition float := spec_float.

Definition is_nan (x : float) : bool :=
  match x with S754_nan => true | _ => false end.

(** An instance of [Exception]: its class name and [str(e)]. *)
Record PyException := mkException { exc_class : string; exc_str : str }.

Definition ValueError (msg : string) : PyException :=
  mkException "ValueError" (lit msg).

(** [pd.DataFrame] with the two columns the application builds. *)
Record DataFrame := mkDataFrame {
  Etiqueta : list str;
  Puntaje : list float
}.

Definition rows (df : DataFrame) : list (str * float) :=
  zip (Etiqueta df) (Puntaje df).

(** Keyword arguments of the pipeline call. *)
Record ClassificationRequest := mkRequest {
  sequences : str;
  candidate_labels : list str;
  req_multi_label : bool;
  req_hypothesis_template : str
}.

(** The part of the pipeline's answer the application reads:
    [result["labels"]] and [result["scores"]]. *)
Record ClassificationResult := mkResult {
  res_labels : list str;
  res_scores : list float
}.

(** What a run of the script shows or calls, in order. *)
Inductive event :=
  | st_warning (msg : str)
  | st_error (msg : str)
  | clf_call (req : ClassificationRequest)
  | st_subheader (msg : str)
  | st_dataframe (df : DataFrame)
  | st_bar_chart (index : list str) (values : list float)
  | st_info (msg : str).

(** How a run ends: normally, by [st.stop()], or with an uncaught
    exception. *)
Inductive outcome (A : Type) :=
  | Done (a : A)
  | Stopped
  | Raised (e : PyException).
Arguments Done {A} a.
Arguments Stopped {A}.
Arguments Raised {A} e.

(** Script monad: the events so far and the outcome. *)
Definition M (A : Type) : Type := list event * outcome A.

Definition ret {A} (a : A) : M A := ([], Done a).

Definition bind {A B} (m : M A) (k : A -> M B) : M B :=
  match m with
  | (t, Done a) => let (t', r) := k a in (t ++ t', r)
  | (t, Stopped) => (t, Stopped)
  | (t, Raised e) => (t, Raised e)
  end.

Definition emit (e : event) : M unit := ([e], Done tt).
Definition st_stop {A} : M A := ([], Stopped).
Definition raise {A} (e : PyException) : M A := ([], Raised e).

(** [try: m  except Exception as e: h e] *)
Definition try_except {A} (m : M A) (h : PyException -> M A) : M A :=
  match m with
  | (t, Raised e) => let (t', r) := h e in (t ++ t', r)
  | other => other
  end.

Declare Scope script_scope.
Delimit Scope script_scope with script.
Notation "x <- m ;; k" := (bind m (fun x => k))
  (at level 61, m at next level, right associativity) : script_scope.
Notation "m ;;; k" := (bind m (fun _ => k))
  (at level 61, right associativity) : script_scope.
Local Open Scope script_scope.

Definition trace {A} (m : M A) : list event := fst m.
Definition result_of {A} (m : M A) : outcome A := snd m.

(** [return pd.DataFrame({"Etiqueta": labels, "Puntaje": scores})];
    pandas refuses columns of different lengths. *)
Definition to_df (labels : list str) (scores : list float) : M DataFrame :=
  if Nat.eqb (List.length labels) (List.length scores)
  then ret (mkDataFrame labels scores)
  else raise (ValueError "All arrays must be of the same length").

(** [out_labels, out_scores = zip( *pairs )]: with no pair [zip()] yields
    nothing and the unpacking into two names raises. *)
Definition unpack_zip_star {A B} (pairs : list (A * B)) : M (list A * list B) :=
  match pairs with
  | [] => raise (ValueError "not enough values to unpack (expected 2, got 0)")
  | _ :: _ => ret (map fst pairs, map snd pairs)
  end.

(** [pairs = sorted(zip(out_labels, out_scores), key=lambda x: x[1],
    reverse=True)] *)
Definition sorted_pairs (out_labels : list str) (out_scores : list float)
  : list (str * float) :=
  sorted SFltb snd (zip out_labels out_scores) true.

(** The shaping step of the handler, from the optional sort to [df]. *)
Definition shape (out_labels : list str) (out_scores : list float)
    (sort_desc : bool) : M DataFrame :=
  ls <- (if sort_desc
         then unpack_zip_star (sorted_pairs out_labels out_scores)
         else ret (out_labels, out_scores)) ;;
  to_df (fst ls) (snd ls).

(* ===================================================================== *)
(** ** Sidebar and click handler                                          *)
(* ===================================================================== *)

Record Options := mkOptions {
  multi_label : bool;
  hypothesis_template : str;
  sort_desc : bool
}.

(** The [value=] arguments of the three sidebar widgets. *)
Definition sidebar_defaults : Options :=
  {| multi_label := true;
     hypothesis_template := lit "Este texto trata sobre {}.";
     sort_desc := true |}.

Definition msg_no_text : str := lit "Por favor ingresa un texto.".
Definition msg_no_labels : str := lit "Por favor ingresa al menos una etiqueta.".
Definition msg_error_prefix : str :=
  lit "Ocurri" ++ [243] ++ lit " un error al clasificar: ".
Definition msg_results : str := lit "Resultados".
Definition msg_chart : str := lit "Gr" ++ [225] ++ lit "fico de barras".
Definition msg_info (hypothesis : str) : str :=
  [8505; 65039] ++ lit " **Zero-Shot (NLI)**: El modelo eval" ++ [250]
  ++ lit "a si el texto implica hip" ++ [243] ++ lit "tesis del tipo "
  ++ [8220] ++ hypothesis ++ [8221] ++ lit "." ++ [LF]
  ++ lit "Activa *Multi-label* si el texto puede pertenecer a varias categor"
  ++ [237] ++ lit "as a la vez.".

Section Handler.
(** The cached pipeline [clf]: answers or raises. *)
Variable clf : ClassificationRequest -> PyException + ClassificationResult.
(** [template.format(arg)]: the text or the exception it raises. *)
Variable str_format : str -> str -> PyException + str.

Definition call_clf (req : ClassificationRequest) : M ClassificationResult :=
  emit (clf_call req) ;;;
  match clf req with
  | inr r => ret r
  | inl e => raise e
  end.

Definition format_template (template arg : str) : M str :=
  match str_format template arg with
  | inr s => ret s
  | inl e => raise e
  end.

(** Body of [if st.button(...):]. *)
Definition on_click (texto raw_labels : str) (opts : Options) : M unit :=
  let labels := parse_labels raw_labels in
  (if negb (truthy (strip texto))
   then emit (st_warning msg_no_text) ;;; st_stop
   else ret tt) ;;;
  (if negb (match labels with [] => false | _ :: _ => true end)
   then emit (st_warning msg_no_labels) ;;; st_stop
   else ret tt) ;;;
  result <- try_except
              (call_clf (mkRequest texto labels (multi_label opts)
                                   (hypothesis_template opts)))
              (fun e => emit (st_error (msg_error_prefix ++ exc_str e)) ;;;
                        st_stop) ;;
  let out_labels := res_labels result in
  let out_scores := res_scores result in
  df <- shape out_labels out_scores (sort_desc opts) ;;
  emit (st_subheader msg_results) ;;;
  emit (st_dataframe df) ;;;
  emit (st_subheader msg_chart) ;;;
  emit (st_bar_chart (Etiqueta df) (Puntaje df)) ;;;
  hyp <- format_template (hypothesis_template opts) (lit "etiqueta") ;;
  emit (st_info (msg_info hyp)).
End Handler.

(* ===================================================================== *)
(** ** Vocabulary of the properties                                       *)
(* ===================================================================== *)

(** [l1] is what is left of [l2] after deleting some elements, order kept. *)
Inductive subseq {A : Type} : list A -> list A -> Prop :=
  | subseq_nil : subseq [] []
  | subseq_skip x l1 l2 : subseq l1 l2 -> subseq l1 (x :: l2)
  | subseq_keep x l1 l2 : subseq l1 l2 -> subseq (x :: l1) (x :: l2).

Definition str_eq_dec : forall a b : str, {a = b} + {a <> b} :=
  list_eq_dec N.eq_dec.

(** Neither a comma nor a newline occurs in [p]. *)
Definition no_separator (p : str) : Prop := ~ In COMMA p /\ ~ In LF p.

(** [p] carries a score equal to [s] (as [==] on floats). *)
Definition same_score (s : float) (p : str * float) : bool :=
  SFeqb (snd p) s.

(** Every row's score is at least the score of every later row. *)
Definition non_increasing (l : list (str * float)) : Prop :=
  StronglySorted (fun p q => SFleb (snd q) (snd p) = true) l.

(** Position of a float that is not NaN in the order [SFcompare] decides:
    class first, then exponent, then mantissa, mirrored for negatives. *)
Definition rank (x : float) : Z * Z * Z :=
  match x with
  | S754_infinity true => (-2, 0, 0)%Z
  | S754_finite true m e => (-1, - e, - Zpos m)%Z
  | S754_zero _ => (0, 0, 0)%Z
  | S754_nan => (0, 0, 0)%Z
  | S754_finite false m e => (1, e, Zpos m)%Z
  | S754_infinity false => (2, 0, 0)%Z
  end.

Definition lexlt (a b : Z * Z * Z) : Prop :=
  match a, b with
  | (a1, a2, a3), (b1, b2, b3) =>
      (a1 < b1 \/ (a1 = b1 /\ (a2 < b2 \/ (a2 = b2 /\ a3 < b3))))%Z
  end.

(** Some binary64 values: 0.25, 0.5 and 0.75. *)
Definition f_quarter : float := S754_finite false 4503599627370496 (-54).
Definition f_half : float := S754_finite false 4503599627370496 (-53).
Definition f_three_quarters : float := S754_finite false 6755399441055744 (-53).

(** Four scored labels with a tie between the first and the third. *)
Definition example_pairs : list (str * float) :=
  [(lit "a", f_half); (lit "b", f_three_quarters);
   (lit "c", f_half); (lit "d", f_quarter)].

(** A pipeline that scores every candidate 0.5, one that always raises,
    and a formatter that appends the argument, for concrete runs. *)
Definition clf_even (req : ClassificationRequest)
  : PyException + ClassificationResult :=
  inr (mkResult (candidate_labels req)
                (map (fun _ => f_half) (candidate_labels req))).

Definition clf_failing (req : ClassificationRequest)
  : PyException + ClassificationResult :=
  inl (mkException "RuntimeError" (lit "out of memory")).

Definition format_append (template arg : str) : PyException + str :=
  inr (template ++ arg).

(* ===================================================================== *)
(** ** The end of the script                                              *)
(* ===================================================================== *)

(** Text of the closing [st.caption]. *)
Definition msg_footer : str :=
  lit "Modelo: facebook/bart-large-mnli " ++ [8226] ++ lit " Librer" ++ [237]
  ++ lit "a: " ++ [129303] ++ lit " transformers " ++ [8226]
  ++ lit " UI: Streamlit".

(** What the script shows from the button on: the handler's events, and
    the two calls that close the page. *)
Inductive page_event :=
  | handler_event (ev : event)
  | st_markdown (body : str)
  | st_caption (body : str).

(** The script from [if st.button(...):] to its last line. [clicked] is
    what [st.button] returned; the footer runs only if the handler neither
    stopped the script nor raised. *)
Definition script_tail
    (clf : ClassificationRequest -> PyException + ClassificationResult)
    (str_format : str -> str -> PyException + str)
    (clicked : bool) (texto raw_labels : str) (opts : Options)
  : list page_event * outcome unit :=
  match (if clicked then on_click clf str_format texto raw_labels opts
         else ret tt) with
  | (t, Done _) =>
      (map handler_event t ++ [st_markdown (lit "---"); st_caption msg_footer],
       Done tt)
  | (t, Stopped) => (map handler_event t, Stopped)
  | (t, Raised e) => (map handler_event t, Raised e)
  end.

(** Further vocabulary. *)
Definition is_separator (c : char) : bool := (c =? COMMA) || (c =? LF).

Definition blank_or_comma (c : char) : bool := isspace c || (c =? COMMA).

Definition is_clf_call (ev : event) : bool :=
  match ev with clf_call _ => true | _ => false end.

(** [p] occurs in [s] as a run of consecutive characters. *)
Definition slice_of (p s : str) : Prop :=
  exists pre post, s = pre ++ p ++ post.

(** A pipeline whose answer has one score too few, and a formatter that
    rejects every template. *)
Definition clf_short (req : ClassificationRequest)
  : PyException + ClassificationResult :=
  inr (mkResult (candidate_labels req)
                (map (fun _ => f_half) (tl (candidate_labels req)))).

Definition format_failing (template arg : str) : PyException + str :=
  inl (mkException "IndexError"
         (lit "Replacement index 1 out of range for positional args tuple")).

(** A pipeline that scores the candidates 0.25, 0.5, 0.25, 0.5, ... *)
Fixpoint alternate_scores (n : nat) : list float :=
  match n with
  | O => []
  | S O => [f_quarter]
  | S (S m) => f_quarter :: f_half :: alternate_scores m
  end.

Definition clf_alternating (req : ClassificationRequest)
  : PyException + ClassificationResult :=
  inr (mkResult (candidate_labels req)
                (alternate_scores (List.length (candidate_labels req)))).

(* ===================================================================== *)
(** ** Facts about the string operations                                  *)
(* ===================================================================== *)

Section StripFacts.

Lemma lstrip_no_leading s : starts_with_space (lstrip s) = false.
Proof.
  induction s as [|c s IH]; simpl; [reflexivity|].
  destruct (isspace c) eqn:E; [exact IH|]. simpl. exact E.
Qed.

Lemma lstrip_id s : starts_with_space s = false -> lstrip s = s.
Proof.
  destruct s as [|c s]; simpl; [reflexivity|]. intros ->. reflexivity.
Qed.

Lemma lstrip_app_nonspace l c r :
  isspace c = false -> lstrip (l ++ c :: r) = lstrip l ++ c :: r.
Proof.
  intros Hc. induction l as [|d l IH]; simpl.
  - rewrite Hc. reflexivity.
  - destruct (isspace d); [exact IH | reflexivity].
Qed.

Lemma rstrip_cons_nonspace c s :
  isspace c = false -> rstrip (c :: s) = c :: rstrip s.
Proof.
  intros Hc. unfold rstrip. simpl rev.
  rewrite lstrip_app_nonspace by exact Hc.
  rewrite rev_app_distr. reflexivity.
Qed.

Lemma strip_no_leading s : starts_with_space (strip s) = false.
Proof.
  unfold strip. pose proof (lstrip_no_leading s) as H.
  destruct (lstrip s) as [|c t]; [reflexivity|].
  simpl in H. rewrite rstrip_cons_nonspace by exact H. exact H.
Qed.

Lemma strip_no_trailing s : ends_with_space (strip s) = false.
Proof.
  unfold ends_with_space.
  replace (rev (strip s)) with (lstrip (rev (lstrip s))).
  - apply lstrip_no_leading.
  - unfold strip, rstrip. symmetry. apply rev_involutive.
Qed.

Lemma strip_id s :
  starts_with_space s = false -> ends_with_space s = false -> strip s = s.
Proof.
  intros H1 H2. unfold strip. rewrite (lstrip_id s H1).
  unfold rstrip. rewrite (lstrip_id (rev s) H2). apply rev_involutive.
Qed.

Lemma In_lstrip c s : In c (lstrip s) -> In c s.
Proof.
  induction s as [|d s IH]; simpl; [tauto|].
  destruct (isspace d); simpl; auto.
Qed.

Lemma In_strip c s : In c (strip s) -> In c s.
Proof.
  unfold strip, rstrip. intros H.
  apply In_lstrip. rewrite in_rev. apply In_lstrip. rewrite in_rev. exact H.
Qed.

End StripFacts.

Section SplitFacts.
Variable sep : char.

Lemma split_not_nil s : split sep s <> [].
Proof.
  destruct s as [|c s]; simpl; [discriminate|].
  destruct (c =? sep); [discriminate|].
  destruct (split sep s); discriminate.
Qed.

Lemma split_no_sep s : Forall (fun p => ~ In sep p) (split sep s).
Proof.
  induction s as [|c s IH]; simpl.
  - constructor; [tauto | constructor].
  - destruct (N.eqb_spec c sep) as [->|Hne].
    + constructor; [tauto | exact IH].
    + destruct (split sep s) as [|p ps]; inversion IH; subst;
        constructor; simpl; try tauto; intros [H|H]; auto.
Qed.

Lemma split_chars s p c : In p (split sep s) -> In c p -> In c s.
Proof.
  revert p. induction s as [|d s IH]; simpl; intros p Hp Hc.
  - destruct Hp as [<-|[]]. exact Hc.
  - destruct (d =? sep).
    + destruct Hp as [<-|Hp]; [destruct Hc | right; eauto].
    + destruct (split sep s) as [|q qs] eqn:E.
      * destruct Hp as [<-|[]]. destruct Hc as [->|[]]. now left.
      * destruct Hp as [<-|Hp].
        -- destruct Hc as [->|Hc]; [now left | right].
           apply (IH q); simpl; auto.
        -- right. apply (IH p); simpl; auto.
Qed.

Lemma split_app_sep p s :
  ~ In sep p -> split sep (p ++ sep :: s) = p :: split sep s.
Proof.
  induction p as [|c p IH]; simpl; intros Hp.
  - rewrite N.eqb_refl. reflexivity.
  - destruct (N.eqb_spec c sep) as [->|Hne]; [tauto|].
    rewrite IH by tauto. reflexivity.
Qed.

Lemma split_single p : ~ In sep p -> split sep p = [p].
Proof.
  induction p as [|c p IH]; simpl; intros Hp; [reflexivity|].
  destruct (N.eqb_spec c sep) as [->|Hne]; [tauto|].
  rewrite IH by tauto. reflexivity.
Qed.

Lemma split_join l :
  l <> [] -> Forall (fun p => ~ In sep p) l -> split sep (join sep l) = l.
Proof.
  induction l as [|p l IH]; intros Hne Hall; [congruence|].
  inversion Hall as [|? ? Hp Hl]; subst.
  destruct l as [|q l].
  - simpl. apply split_single. exact Hp.
  - change (join sep (p :: q :: l)) with (p ++ sep :: join sep (q :: l)).
    rewrite split_app_sep by exact Hp.
    rewrite IH; [reflexivity | discriminate | exact Hl].
Qed.

Lemma join_chars l c :
  In c (join sep l) -> c = sep \/ exists p, In p l /\ In c p.
Proof.
  induction l as [|p l IH]; [intros []|].
  destruct l as [|q l].
  - simpl. intros H. right. exists p. auto.
  - change (join sep (p :: q :: l)) with (p ++ sep :: join sep (q :: l)).
    intros H. apply in_app_or in H. destruct H as [H|[H|H]].
    + right. exists p. split; [now left | exact H].
    + left. symmetry. exact H.
    + destruct (IH H) as [->|[r [Hr Hc]]]; [now left|].
      right. exists r. split; [now right | exact Hc].
Qed.

End SplitFacts.

Lemma replace_removes old new s : old <> new -> ~ In old (replace old new s).
Proof.
  intros Hne. unfold replace. rewrite in_map_iff. intros [c [Hc _]].
  destruct (N.eqb_spec c old); congruence.
Qed.

Lemma replace_absent old new s : ~ In old s -> replace old new s = s.
Proof.
  intros H. unfold replace. rewrite <- (map_id s) at 2.
  apply map_ext_in. intros c Hc.
  destruct (N.eqb_spec c old); [subst; tauto | reflexivity].
Qed.

Lemma replace_chars old new s c :
  In c (replace old new s) -> c = new \/ In c s.
Proof.
  unfold replace. rewrite in_map_iff. intros [d [Hd Hin]].
  destruct (N.eqb_spec d old); subst; auto.
Qed.

(* ===================================================================== *)
(** ** parse_labels                                                       *)
(* ===================================================================== *)

Lemma truthy_true_iff (p : str) : truthy p = true <-> p <> [].
Proof. destruct p; simpl; split; congruence. Qed.

Lemma parts_trimmed raw p :
  In p (parts raw) ->
  starts_with_space p = false /\ ends_with_space p = false.
Proof.
  unfold parts. rewrite in_map_iff. intros [q [<- _]].
  split; [apply strip_no_leading | apply strip_no_trailing].
Qed.

Lemma parts_no_separator raw p : In p (parts raw) -> no_separator p.
Proof.
  unfold parts. rewrite in_map_iff. intros [q [<- Hq]]. split; intros Hc.
  - apply In_strip in Hc.
    pose proof (split_no_sep COMMA (replace LF COMMA raw)) as Hall.
    rewrite Forall_forall in Hall. exact (Hall q Hq Hc).
  - apply In_strip in Hc.
    apply (split_chars COMMA _ q LF Hq) in Hc.
    revert Hc. apply replace_removes. discriminate.
Qed.

Lemma parse_labels_In raw p :
  In p (parse_labels raw) <-> In p (parts raw) /\ p <> [].
Proof.
  unfold parse_labels. rewrite filter_In, truthy_true_iff. tauto.
Qed.

Lemma parse_labels_is_label raw : Forall is_label (parse_labels raw).
Proof.
  apply Forall_forall. intros p Hp. apply parse_labels_In in Hp.
  destruct Hp as [Hp Hne]. destruct (parts_trimmed raw p Hp) as [H1 H2].
  repeat split; assumption.
Qed.

Lemma parse_labels_no_separator raw : Forall no_separator (parse_labels raw).
Proof.
  apply Forall_forall. intros p Hp. apply parse_labels_In in Hp.
  apply (parts_no_separator raw). tauto.
Qed.

Lemma filter_subseq {A} (f : A -> bool) l : subseq (filter f l) l.
Proof.
  induction l as [|x l IH]; simpl; [constructor|].
  destruct (f x); constructor; exact IH.
Qed.

Lemma filter_all {A} (f : A -> bool) l :
  Forall (fun x => f x = true) l -> filter f l = l.
Proof.
  induction 1 as [|x l Hx _ IH]; simpl; [reflexivity|].
  rewrite Hx, IH. reflexivity.
Qed.

(** Labels free of separators survive a trip through their comma-joined
    text unchanged: same elements, same order, same multiplicities. *)
Lemma parse_labels_join ls :
  Forall is_label ls -> Forall no_separator ls ->
  parse_labels (join COMMA ls) = ls.
Proof.
  intros Hlab Hsep. destruct ls as [|p ls]; [reflexivity|].
  unfold parse_labels, parts.
  rewrite replace_absent.
  - rewrite split_join.
    + rewrite <- (map_id (p :: ls)) at 2.
      rewrite (map_ext_in strip (fun x => x)).
      * rewrite map_id. apply filter_all.
        eapply Forall_impl; [|exact Hlab].
        intros q [Hq _]. apply truthy_true_iff. exact Hq.
      * intros q Hq. rewrite Forall_forall in Hlab.
        destruct (Hlab q Hq) as [_ [H1 H2]]. apply strip_id; assumption.
    + discriminate.
    + eapply Forall_impl; [|exact Hsep]. intros q [Hq _]. exact Hq.
  - intros Hc. apply join_chars in Hc. destruct Hc as [Hc|[q [Hq Hc]]].
    + discriminate Hc.
    + rewrite Forall_forall in Hsep. destruct (Hsep q Hq) as [_ Hnl].
      exact (Hnl Hc).
Qed.

(** C4: every element of [parse_labels raw] is non-empty and has no leading
    or trailing whitespace (so it is not all whitespace either), and the
    list is what the worded algorithm gives: newlines replaced by commas,
    split on commas, each piece trimmed, empty pieces discarded. *)
Theorem parse_labels_nonempty_trimmed (raw : str) :
  Forall (fun p => is_label p /\ forallb isspace p = false)
         (parse_labels raw)
  /\ parse_labels raw = parse_labels_spec raw.
Proof.
  split.
  - eapply Forall_impl; [|apply parse_labels_is_label].
    intros p [Hne [H1 H2]]. split; [repeat split; assumption|].
    destruct p as [|c p]; [congruence|]. simpl in *. rewrite H1. reflexivity.
  - unfold parse_labels, parse_labels_spec, parts, replace.
    apply filter_ext. intros [|c p]; reflexivity.
Qed.

(** C5: [parse_labels("a, b\nc,, d ")] is [["a", "b", "c", "d"]] and
    [parse_labels("")] is the empty list. *)
Theorem parse_labels_examples :
  parse_labels (lit "a, b" ++ [LF] ++ lit "c,, d ")
    = [lit "a"; lit "b"; lit "c"; lit "d"]
  /\ parse_labels (lit "") = [].
Proof. split; vm_compute; reflexivity. Qed.

(** C6: [parse_labels] keeps the order of the pieces and every repetition:
    the output is the trimmed pieces with only empty ones deleted, each
    non-empty label occurs as often as it does among the trimmed pieces,
    and a list of labels written out with commas, repeated labels
    included, is read back exactly. *)
Theorem parse_labels_order_and_duplicates (raw : str) :
  subseq (parse_labels raw) (parts raw)
  /\ (forall l : str, l <> [] ->
        count_occ str_eq_dec (parse_labels raw) l
        = count_occ str_eq_dec (parts raw) l)
  /\ (forall ls : list str,
        Forall is_label ls -> Forall no_separator ls ->
        parse_labels (join COMMA ls) = ls)
  /\ parse_labels (lit "b,a,b") = [lit "b"; lit "a"; lit "b"].
Proof.
  split; [apply filter_subseq|]. split; [|split].
  - intros l Hl. unfold parse_labels.
    induction (parts raw) as [|p ps IH]; [reflexivity|].
    destruct p as [|c p].
    + change (filter truthy ([] :: ps)) with (filter truthy ps).
      rewrite count_occ_cons_neq by congruence. exact IH.
    + change (filter truthy ((c :: p) :: ps))
        with ((c :: p) :: filter truthy ps).
      destruct (str_eq_dec (c :: p) l) as [E|E].
      * rewrite !count_occ_cons_eq by exact E. f_equal. exact IH.
      * rewrite !count_occ_cons_neq by exact E. exact IH.
  - apply parse_labels_join.
  - vm_compute. reflexivity.
Qed.

(** C9: no element of [parse_labels raw] contains a comma or a newline, and
    joining the result with commas and parsing again gives it back. *)
Theorem parse_labels_join_roundtrip (raw : str) :
  Forall no_separator (parse_labels raw)
  /\ parse_labels (join COMMA (parse_labels raw)) = parse_labels raw.
Proof.
  split; [apply parse_labels_no_separator|].
  apply parse_labels_join;
    [apply parse_labels_is_label | apply parse_labels_no_separator].
Qed.

(* ===================================================================== *)
(** ** The order on floats that are not NaN                               *)
(* ===================================================================== *)

Ltac float_cases x y :=
  destruct x as [[|]|[|]| |[|] ?m ?e]; try discriminate;
  destruct y as [[|]|[|]| |[|] ?m ?e]; try discriminate;
  intros _ _; cbn -[Z.compare Pos.compare Z.lt Z.opp];
  try (split; intros; (reflexivity || lia || discriminate || tauto)).

Ltac mantissa_cases :=
  match goal with
  | |- context [Z.compare ?a ?b] =>
      change (Pos.compare_cont Eq) with Pos.compare;
      destruct (Z.compare_spec a b);
      match goal with
      | |- context [Pos.compare ?c ?d] => destruct (Pos.compare_spec c d)
      | _ => idtac
      end;
      cbn; split; intros; (reflexivity || lia || discriminate || tauto)
  end.

Lemma SFltb_rank x y :
  is_nan x = false -> is_nan y = false ->
  SFltb x y = true <-> lexlt (rank x) (rank y).
Proof. unfold SFltb. float_cases x y; mantissa_cases. Qed.

Lemma SFleb_rank x y :
  is_nan x = false -> is_nan y = false ->
  SFleb x y = true <-> ~ lexlt (rank y) (rank x).
Proof. unfold SFleb. float_cases x y; mantissa_cases. Qed.

Lemma SFeqb_rank x y :
  is_nan x = false -> is_nan y = false ->
  SFeqb x y = true <-> ~ lexlt (rank x) (rank y) /\ ~ lexlt (rank y) (rank x).
Proof. unfold SFeqb. float_cases x y; mantissa_cases. Qed.

Lemma not_true_false (b : bool) : b = false <-> ~ b = true.
Proof. destruct b; split; congruence. Qed.

Lemma SFltb_irrefl x : is_nan x = false -> SFltb x x = false.
Proof.
  intros Hx. apply not_true_false. rewrite (SFltb_rank x x Hx Hx).
  destruct (rank x) as [[a b] c]. simpl. lia.
Qed.

Lemma SFltb_trans x y z :
  is_nan x = false -> is_nan y = false -> is_nan z = false ->
  SFltb x y = true -> SFltb y z = true -> SFltb x z = true.
Proof.
  intros Hx Hy Hz.
  rewrite (SFltb_rank x y Hx Hy), (SFltb_rank y z Hy Hz),
    (SFltb_rank x z Hx Hz).
  destruct (rank x) as [[a1 a2] a3], (rank y) as [[b1 b2] b3],
    (rank z) as [[c1 c2] c3]. simpl. lia.
Qed.

Lemma SFltb_incomp x y z :
  is_nan x = false -> is_nan y = false -> is_nan z = false ->
  SFltb x y = false -> SFltb y z = false -> SFltb x z = false.
Proof.
  intros Hx Hy Hz. rewrite !not_true_false.
  rewrite (SFltb_rank x y Hx Hy), (SFltb_rank y z Hy Hz),
    (SFltb_rank x z Hx Hz).
  destruct (rank x) as [[a1 a2] a3], (rank y) as [[b1 b2] b3],
    (rank z) as [[c1 c2] c3]. simpl. lia.
Qed.

Lemma SFleb_not_ltb x y :
  is_nan x = false -> is_nan y = false ->
  SFleb y x = true <-> SFltb x y = false.
Proof.
  intros Hx Hy.
  rewrite not_true_false, (SFleb_rank y x Hy Hx), (SFltb_rank x y Hx Hy).
  tauto.
Qed.

Lemma SFeqb_incomparable x y :
  is_nan x = false -> is_nan y = false ->
  SFeqb x y = negb (SFltb y x) && negb (SFltb x y).
Proof.
  intros Hx Hy.
  pose proof (SFeqb_rank x y Hx Hy) as He.
  pose proof (SFltb_rank x y Hx Hy) as H1.
  pose proof (SFltb_rank y x Hy Hx) as H2.
  destruct (SFeqb x y), (SFltb y x), (SFltb x y); simpl; try reflexivity;
    exfalso; intuition congruence.
Qed.

Lemma SFeqb_nan_l x y : is_nan x = true -> SFeqb x y = false.
Proof. destruct x; try discriminate. reflexivity. Qed.

Lemma SFeqb_nan_r x y : is_nan y = true -> SFeqb x y = false.
Proof. destruct y; try discriminate. destruct x; reflexivity. Qed.

(* ===================================================================== *)
(** ** The sort: ordered, a permutation, stable                           *)
(* ===================================================================== *)

Section SortFacts.
Context {A K : Type}.
Variable lt : K -> K -> bool.
Variable key : A -> K.
Variable ok : K -> Prop.

Hypothesis lt_irrefl : forall x, ok x -> lt x x = false.
Hypothesis lt_trans : forall x y z, ok x -> ok y -> ok z ->
  lt x y = true -> lt y z = true -> lt x z = true.
Hypothesis lt_incomp : forall x y z, ok x -> ok y -> ok z ->
  lt x y = false -> lt y z = false -> lt x z = false.

Let okA (a : A) : Prop := ok (key a).
Let ascending : list A -> Prop :=
  StronglySorted (fun a b => lt (key b) (key a) = false).
Let eqv (e : K) (a : A) : bool :=
  negb (lt e (key a)) && negb (lt (key a) e).

Lemma insort_perm x l : Permutation (x :: l) (insort lt key x l).
Proof.
  induction l as [|y l IH]; simpl; [reflexivity|].
  destruct (lt (key x) (key y)); [reflexivity|].
  rewrite perm_swap. apply perm_skip. exact IH.
Qed.

Lemma sort_asc_perm_acc l acc :
  Permutation (acc ++ l)
    (fold_left (fun acc x => insort lt key x acc) l acc).
Proof.
  revert acc. induction l as [|x l IH]; intros acc; simpl.
  - rewrite app_nil_r. reflexivity.
  - rewrite <- IH. rewrite <- insort_perm.
    symmetry. apply Permutation_middle.
Qed.

Lemma sort_asc_perm l : Permutation l (sort_asc lt key l).
Proof. exact (sort_asc_perm_acc l []). Qed.

Lemma insort_ok x l : okA x -> Forall okA l -> Forall okA (insort lt key x l).
Proof.
  intros Hx Hl. eapply Permutation_Forall; [apply insort_perm|].
  constructor; assumption.
Qed.

Lemma insort_ascending x l :
  okA x -> Forall okA l -> ascending l -> ascending (insort lt key x l).
Proof.
  intros Hx Hl Hs. induction Hs as [|y l Hs IH Hy]; simpl.
  - constructor; constructor.
  - inversion Hl as [|? ? Hoy Hol]; subst.
    destruct (lt (key x) (key y)) eqn:E.
    + constructor; [constructor; assumption|].
      assert (Hyx : lt (key y) (key x) = false).
      { apply not_true_false. intros Hyx.
        pose proof (lt_trans _ _ _ Hx Hoy Hx E Hyx) as C.
        rewrite (lt_irrefl _ Hx) in C. discriminate. }
      constructor; [exact Hyx|].
      rewrite Forall_forall in Hy, Hol |- *. intros z Hz.
      apply (lt_incomp _ (key y) _ (Hol z Hz) Hoy Hx); auto.
    + constructor; [apply IH; exact Hol|].
      eapply Permutation_Forall; [apply insort_perm|].
      constructor; assumption.
Qed.

Lemma filter_none {B} (f : B -> bool) l :
  Forall (fun z => f z = false) l -> filter f l = [].
Proof.
  induction 1 as [|z l Hz _ IH]; simpl; [reflexivity|].
  rewrite Hz. exact IH.
Qed.

Lemma insort_filter e x l :
  ok e -> okA x -> Forall okA l -> ascending l ->
  filter (eqv e) (insort lt key x l)
  = filter (eqv e) l ++ (if eqv e x then [x] else []).
Proof.
  intros He Hx Hl Hs. induction Hs as [|y l Hs IH Hy].
  - reflexivity.
  - inversion Hl as [|? ? Hoy Hol]; subst. cbn [insort].
    destruct (lt (key x) (key y)) eqn:E.
    + change (filter (eqv e) (x :: y :: l))
        with (if eqv e x then x :: filter (eqv e) (y :: l)
              else filter (eqv e) (y :: l)).
      destruct (eqv e x) eqn:Eex.
      * assert (Hnone : filter (eqv e) (y :: l) = []).
        { apply andb_prop in Eex. destruct Eex as [_ Hxe].
          apply negb_true_iff in Hxe.
          apply filter_none. rewrite Forall_forall. intros z Hz.
          assert (Hoz : okA z).
          { rewrite Forall_forall in Hl. apply Hl. exact Hz. }
          assert (Hxz : lt (key x) (key z) = true).
          { destruct Hz as [<-|Hz]; [exact E|].
            destruct (lt (key x) (key z)) eqn:Exz; [reflexivity|].
            rewrite Forall_forall in Hy.
            pose proof (lt_incomp _ _ _ Hx Hoz Hoy Exz (Hy z Hz)).
            congruence. }
          unfold eqv. destruct (lt e (key z)) eqn:Eez; [reflexivity|].
          pose proof (lt_incomp _ _ _ Hx He Hoz Hxe Eez). congruence. }
        rewrite Hnone. reflexivity.
      * rewrite app_nil_r. reflexivity.
    + simpl. rewrite (IH Hol).
      destruct (eqv e y); reflexivity.
Qed.

Lemma sort_asc_acc e l acc :
  ok e -> Forall okA acc -> Forall okA l -> ascending acc ->
  let out := fold_left (fun acc x => insort lt key x acc) l acc in
  ascending out /\ filter (eqv e) out = filter (eqv e) acc ++ filter (eqv e) l.
Proof.
  intros He Hacc Hl. revert acc Hacc.
  induction Hl as [|x l Hx Hl IH]; intros acc Hacc Hs; simpl.
  - rewrite app_nil_r. split; [exact Hs | reflexivity].
  - destruct (IH (insort lt key x acc)) as [H1 H2].
    + apply insort_ok; assumption.
    + apply insort_ascending; assumption.
    + split; [exact H1|]. rewrite H2, insort_filter by assumption.
      rewrite <- app_assoc. destruct (eqv e x); reflexivity.
Qed.

Lemma StronglySorted_snoc {B} (R : B -> B -> Prop) l a :
  StronglySorted R l -> Forall (fun x => R x a) l ->
  StronglySorted R (l ++ [a]).
Proof.
  induction 1 as [|x l Hs IH Hx]; intros Ha; simpl.
  - constructor; constructor.
  - inversion Ha; subst. constructor; [apply IH; assumption|].
    apply Forall_app. split; [exact Hx | constructor; [assumption|constructor]].
Qed.

Lemma StronglySorted_rev {B} (R : B -> B -> Prop) l :
  StronglySorted R l -> StronglySorted (fun a b => R b a) (rev l).
Proof.
  induction 1 as [|x l Hs IH Hx]; simpl; [constructor|].
  apply StronglySorted_snoc; [exact IH|].
  apply Forall_rev. exact Hx.
Qed.

Lemma filter_rev_comm {B} (f : B -> bool) l :
  filter f (rev l) = rev (filter f l).
Proof.
  induction l as [|x l IH]; simpl; [reflexivity|].
  rewrite filter_app, IH. simpl. destruct (f x); simpl.
  - reflexivity.
  - apply app_nil_r.
Qed.

(** [sorted(l, key=key, reverse=True)] on keys [<] orders totally up to
    ties: no element is followed by one with a greater key, the elements
    are those of [l], and elements tied on the key keep their order. *)
Lemma sorted_reverse_spec l :
  Forall okA l ->
  let out := sorted lt key l true in
  StronglySorted (fun a b => lt (key a) (key b) = false) out
  /\ Permutation l out
  /\ forall e, ok e -> filter (eqv e) out = filter (eqv e) l.
Proof.
  intros Hl. unfold sorted, sort_asc.
  assert (Hr : Forall okA (rev l)) by (apply Forall_rev; exact Hl).
  split; [|split].
  - apply (StronglySorted_rev (fun a b => lt (key b) (key a) = false)).
    destruct l as [|a l'].
    + constructor.
    + refine (proj1 (sort_asc_acc (key a) (rev (a :: l')) [] _ _ Hr _)).
      * inversion Hl; assumption.
      * constructor.
      * constructor.
  - rewrite <- Permutation_rev. rewrite (Permutation_rev l) at 1.
    apply sort_asc_perm.
  - intros e He. rewrite filter_rev_comm.
    rewrite (proj2 (sort_asc_acc e (rev l) [] He (Forall_nil _) Hr
                      (SSorted_nil _))).
    simpl. rewrite filter_rev_comm. apply rev_involutive.
Qed.

End SortFacts.

(* ===================================================================== *)
(** ** The shaping step                                                   *)
(* ===================================================================== *)

Lemma zip_unzip {A B} (pairs : list (A * B)) :
  zip (map fst pairs) (map snd pairs) = pairs.
Proof.
  unfold zip. induction pairs as [|[a b] l IH]; simpl; [reflexivity|].
  rewrite IH. reflexivity.
Qed.

Lemma to_df_aligned (pairs : list (str * float)) :
  to_df (map fst pairs) (map snd pairs)
  = ([], Done (mkDataFrame (map fst pairs) (map snd pairs))).
Proof.
  unfold to_df. rewrite !length_map, Nat.eqb_refl. reflexivity.
Qed.

Lemma sorted_pairs_perm ls ss : Permutation (zip ls ss) (sorted_pairs ls ss).
Proof.
  unfold sorted_pairs, sorted, sort_asc.
  rewrite <- Permutation_rev. rewrite (Permutation_rev (zip ls ss)) at 1.
  apply sort_asc_perm.
Qed.

Lemma shape_sorted_nonempty ls ss :
  zip ls ss <> [] ->
  shape ls ss true
  = ([], Done (mkDataFrame (map fst (sorted_pairs ls ss))
                           (map snd (sorted_pairs ls ss)))).
Proof.
  intros Hne. unfold shape.
  pose proof (sorted_pairs_perm ls ss) as Hp.
  destruct (sorted_pairs ls ss) as [|p out] eqn:E.
  - apply Permutation_sym, Permutation_nil in Hp. contradiction.
  - unfold unpack_zip_star, ret, bind. cbn [fst snd].
    rewrite to_df_aligned. reflexivity.
Qed.

Lemma StronglySorted_weaken {B} (R R' : B -> B -> Prop) (P : B -> Prop) l :
  (forall a b, P a -> P b -> R a b -> R' a b) ->
  Forall P l -> StronglySorted R l -> StronglySorted R' l.
Proof.
  intros Himp Hl Hs. induction Hs as [|x l Hs IH Hx]; [constructor|].
  inversion Hl as [|? ? Hpx Hpl]; subst.
  constructor; [apply IH; exact Hpl|].
  rewrite Forall_forall in Hx, Hpl |- *. intros y Hy.
  apply Himp; auto.
Qed.

(** C1: with [sort_desc] on, the table built from aligned (label, score)
    pairs (one at least, scores not NaN, as the pipeline returns them) holds
    exactly the pairs sorted by [sorted(..., reverse=True)]: scores never
    increase down the table, the rows are a permutation of the pairs, and
    rows with equal scores are in their original relative order. *)
Theorem shape_sort_desc_stable (pairs : list (str * float)) :
  pairs <> [] ->
  Forall (fun p => is_nan (snd p) = false) pairs ->
  exists df,
    shape (map fst pairs) (map snd pairs) true = ([], Done df)
    /\ Etiqueta df = map fst (rows df)
    /\ Puntaje df = map snd (rows df)
    /\ rows df = sorted_pairs (map fst pairs) (map snd pairs)
    /\ non_increasing (rows df)
    /\ Permutation pairs (rows df)
    /\ (forall s, filter (same_score s) (rows df)
                  = filter (same_score s) pairs).
Proof.
  intros Hne Hnan.
  exists (mkDataFrame (map fst (sorted_pairs (map fst pairs) (map snd pairs)))
                      (map snd (sorted_pairs (map fst pairs) (map snd pairs)))).
  split; [apply shape_sorted_nonempty; rewrite zip_unzip; exact Hne|].
  unfold rows. cbn [Etiqueta Puntaje]. rewrite zip_unzip.
  do 3 (split; [reflexivity|]).
  unfold sorted_pairs. rewrite zip_unzip.
  destruct (sorted_reverse_spec SFltb (@snd str float)
              (fun x => is_nan x = false)
              SFltb_irrefl SFltb_trans SFltb_incomp pairs Hnan)
    as [Hsorted [Hperm Hstable]].
  assert (Hout : Forall (fun p => is_nan (snd p) = false)
                        (sorted SFltb snd pairs true))
    by (eapply Permutation_Forall; eassumption).
  split; [|split].
  - unfold non_increasing.
    eapply StronglySorted_weaken; [|exact Hout|exact Hsorted].
    intros a b Ha Hb Hab. cbv beta in *.
    apply SFleb_not_ltb; assumption.
  - exact Hperm.
  - intros s. destruct (is_nan s) eqn:Es.
    + rewrite !filter_none; [reflexivity| |];
        apply Forall_forall; intros p _; apply SFeqb_nan_r; exact Es.
    + rewrite (filter_ext_in (same_score s)
                 (fun a => negb (SFltb s (snd a)) && negb (SFltb (snd a) s))
                 (sorted SFltb snd pairs true)).
      * rewrite (filter_ext_in (same_score s)
                   (fun a => negb (SFltb s (snd a)) && negb (SFltb (snd a) s))
                   pairs).
        -- apply Hstable. exact Es.
        -- intros p Hp. rewrite Forall_forall in Hnan.
           apply SFeqb_incomparable; auto.
      * intros p Hp. rewrite Forall_forall in Hout.
        apply SFeqb_incomparable; auto.
Qed.

Lemma shape_sort_desc_stable_witness :
  example_pairs <> []
  /\ Forall (fun p => is_nan (snd p) = false) example_pairs
  /\ exists df,
       shape (map fst example_pairs) (map snd example_pairs) true
       = ([], Done df)
       /\ Etiqueta df = map fst (rows df)
       /\ Puntaje df = map snd (rows df)
       /\ rows df = sorted_pairs (map fst example_pairs) (map snd example_pairs)
       /\ non_increasing (rows df)
       /\ Permutation example_pairs (rows df)
       /\ (forall s, filter (same_score s) (rows df)
                     = filter (same_score s) example_pairs).
Proof.
  split; [discriminate|]. split; [repeat constructor|].
  apply (shape_sort_desc_stable example_pairs);
    [discriminate | repeat constructor].
Defined.

Example sorted_pairs_example :
  sorted_pairs (map fst example_pairs) (map snd example_pairs)
  = [(lit "b", f_three_quarters); (lit "a", f_half);
     (lit "c", f_half); (lit "d", f_quarter)].
Proof. vm_compute. reflexivity. Qed.

(** C7: with [sort_desc] off, the table built from aligned (label, score)
    pairs has the pairs as its rows, row [i] being pair [i], and as many
    rows as there are pairs. *)
Theorem shape_unsorted_identity (pairs : list (str * float)) :
  exists df,
    shape (map fst pairs) (map snd pairs) false = ([], Done df)
    /\ Etiqueta df = map fst pairs
    /\ Puntaje df = map snd pairs
    /\ rows df = pairs
    /\ (forall i, nth_error (rows df) i = nth_error pairs i)
    /\ List.length (rows df) = List.length pairs.
Proof.
  exists (mkDataFrame (map fst pairs) (map snd pairs)).
  assert (Hrows : rows (mkDataFrame (map fst pairs) (map snd pairs)) = pairs)
    by (unfold rows; apply zip_unzip).
  split.
  - unfold shape, ret, bind. cbn [fst snd]. rewrite to_df_aligned. reflexivity.
  - rewrite Hrows. repeat split; reflexivity.
Qed.

(* ===================================================================== *)
(** ** The click handler                                                  *)
(* ===================================================================== *)

Lemma lstrip_blank s : forallb isspace s = true -> lstrip s = [].
Proof.
  induction s as [|c s IH]; simpl; [reflexivity|].
  destruct (isspace c); simpl; [exact IH | discriminate].
Qed.

Lemma strip_blank s : forallb isspace s = true -> strip s = [].
Proof. intros H. unfold strip. rewrite (lstrip_blank s H). reflexivity. Qed.

Lemma lstrip_nonblank s : forallb isspace s = false -> lstrip s <> [].
Proof.
  induction s as [|c s IH]; simpl; [discriminate|].
  destruct (isspace c); simpl; [exact IH | discriminate].
Qed.

Lemma strip_nonblank s : forallb isspace s = false -> strip s <> [].
Proof.
  intros H. unfold strip.
  pose proof (lstrip_nonblank s H) as Hne.
  pose proof (lstrip_no_leading s) as Hlead.
  destruct (lstrip s) as [|c t]; [congruence|].
  simpl in Hlead. rewrite rstrip_cons_nonspace by exact Hlead. discriminate.
Qed.

Section HandlerFacts.
Variable clf : ClassificationRequest -> PyException + ClassificationResult.
Variable str_format : str -> str -> PyException + str.
Variables texto raw_labels : str.
Variable opts : Options.

Let request : ClassificationRequest :=
  mkRequest texto (parse_labels raw_labels) (multi_label opts)
            (hypothesis_template opts).
Let run : M unit := on_click clf str_format texto raw_labels opts.

Lemma on_click_no_text :
  strip texto = [] -> run = ([st_warning msg_no_text], Stopped).
Proof. intros H. unfold run, on_click. rewrite H. reflexivity. Qed.

Lemma on_click_no_labels :
  strip texto <> [] -> parse_labels raw_labels = [] ->
  run = ([st_warning msg_no_labels], Stopped).
Proof.
  intros Ht Hl. unfold run, on_click. rewrite Hl.
  destruct (strip texto); [congruence | reflexivity].
Qed.

Lemma on_click_raised e :
  strip texto <> [] -> parse_labels raw_labels <> [] ->
  clf request = inl e ->
  run = ([clf_call request; st_error (msg_error_prefix ++ exc_str e)],
         Stopped).
Proof.
  intros Ht Hl He. unfold run, on_click, call_clf. fold request. rewrite He.
  destruct (strip texto); [congruence|].
  destruct (parse_labels raw_labels); [congruence | reflexivity].
Qed.

Lemma on_click_answered r df :
  strip texto <> [] -> parse_labels raw_labels <> [] ->
  clf request = inr r ->
  shape (res_labels r) (res_scores r) (sort_desc opts) = ([], Done df) ->
  let tail := (hyp <- format_template str_format (hypothesis_template opts)
                                      (lit "etiqueta") ;;
               emit (st_info (msg_info hyp)))%script in
  run = ([clf_call request; st_subheader msg_results; st_dataframe df;
          st_subheader msg_chart; st_bar_chart (Etiqueta df) (Puntaje df)]
         ++ trace tail, result_of tail).
Proof.
  intros Ht Hl Hr Hs. unfold run, on_click, call_clf. fold request.
  rewrite Hr.
  destruct (strip texto); [congruence|].
  destruct (parse_labels raw_labels); [congruence|].
  cbn [truthy negb bind ret emit try_except app]. rewrite Hs.
  cbn [bind emit app]. unfold format_template.
  destruct (str_format (hypothesis_template opts) (lit "etiqueta"));
    reflexivity.
Qed.

End HandlerFacts.

(** C2: when the text is empty or all whitespace, or no label is parsed,
    the run shows one warning and stops, and the pipeline is not called. *)
Theorem validation_stops_before_inference
    (clf : ClassificationRequest -> PyException + ClassificationResult)
    (str_format : str -> str -> PyException + str)
    (texto raw_labels : str) (opts : Options) :
  forallb isspace texto = true \/ parse_labels raw_labels = [] ->
  let run := on_click clf str_format texto raw_labels opts in
  result_of run = Stopped
  /\ (trace run = [st_warning msg_no_text]
      \/ trace run = [st_warning msg_no_labels])
  /\ (forall req, ~ In (clf_call req) (trace run)).
Proof.
  intros H run.
  assert (Hrun : run = ([st_warning msg_no_text], Stopped)
                 \/ run = ([st_warning msg_no_labels], Stopped)).
  { destruct (str_eq_dec (strip texto) []) as [Hs|Hs].
    - left. apply on_click_no_text. exact Hs.
    - destruct H as [H|H].
      + rewrite (strip_blank texto H) in Hs. congruence.
      + right. apply on_click_no_labels; assumption. }
  destruct Hrun as [-> | ->]; (split; [reflexivity|]); split; auto;
    intros req [Hin|[]]; discriminate.
Qed.

Lemma validation_stops_before_inference_witness :
  (forallb isspace (lit "  ") = true \/ parse_labels (lit "a,b") = [])
  /\ let run := on_click clf_even format_append (lit "  ") (lit "a,b")
                         sidebar_defaults in
     result_of run = Stopped
     /\ (trace run = [st_warning msg_no_text]
         \/ trace run = [st_warning msg_no_labels])
     /\ (forall req, ~ In (clf_call req) (trace run)).
Proof.
  split; [left; reflexivity|].
  apply (validation_stops_before_inference clf_even format_append
           (lit "  ") (lit "a,b") sidebar_defaults).
  left. reflexivity.
Defined.

(** C3: when the pipeline raises, the exception does not leave the
    handler: the run shows one error message that ends in the exception's
    text, shows nothing else, and ends by [st.stop()]. *)
Theorem inference_error_caught_and_reported
    (clf : ClassificationRequest -> PyException + ClassificationResult)
    (str_format : str -> str -> PyException + str)
    (texto raw_labels : str) (opts : Options) (e : PyException) :
  forallb isspace texto = false ->
  parse_labels raw_labels <> [] ->
  let req := mkRequest texto (parse_labels raw_labels) (multi_label opts)
                       (hypothesis_template opts) in
  clf req = inl e ->
  on_click clf str_format texto raw_labels opts
  = ([clf_call req; st_error (msg_error_prefix ++ exc_str e)], Stopped).
Proof.
  intros Ht Hl req He.
  apply on_click_raised; [apply strip_nonblank; exact Ht | exact Hl | exact He].
Qed.

Lemma inference_error_caught_and_reported_witness :
  forallb isspace (lit "hola") = false
  /\ parse_labels (lit "a,b") <> []
  /\ on_click clf_failing format_append (lit "hola") (lit "a,b")
              sidebar_defaults
     = ([clf_call (mkRequest (lit "hola") [lit "a"; lit "b"] true
                             (lit "Este texto trata sobre {}."));
         st_error (msg_error_prefix ++ lit "out of memory")], Stopped).
Proof.
  split; [reflexivity|]. split; [discriminate|].
  apply (inference_error_caught_and_reported clf_failing format_append
           (lit "hola") (lit "a,b") sidebar_defaults
           (mkException "RuntimeError" (lit "out of memory")));
    [reflexivity | discriminate | reflexivity].
Defined.

(** C8 as the code has it: [multi_label] and [sort_desc] default to true,
    and the hypothesis template defaults to "Este texto trata sobre {}.". *)
Theorem sidebar_default_values :
  multi_label sidebar_defaults = true
  /\ sort_desc sidebar_defaults = true
  /\ hypothesis_template sidebar_defaults = lit "Este texto trata sobre {}.".
Proof. repeat split. Qed.

(** C8 as stated fails: the default template is not
    "This text is about {}.". *)
Lemma sidebar_default_template_not_english :
  ~ (multi_label sidebar_defaults = true
     /\ sort_desc sidebar_defaults = true
     /\ hypothesis_template sidebar_defaults = lit "This text is about {}.").
Proof. intros [_ [_ H]]. discriminate H. Qed.

(** C10: unpacking [zip] of no pairs raises; but when the pipeline answers
    with one label and one score per candidate, a run with [sort_desc] on
    either stops at a validation warning, or has a non-empty label list, a
    non-empty pair list, and shows the table built from the unpacked
    columns. *)
Theorem zip_unpack_guarded
    (clf : ClassificationRequest -> PyException + ClassificationResult)
    (str_format : str -> str -> PyException + str)
    (texto raw_labels : str) (opts : Options) (r : ClassificationResult) :
  sort_desc opts = true ->
  clf (mkRequest texto (parse_labels raw_labels) (multi_label opts)
                 (hypothesis_template opts)) = inr r ->
  List.length (res_labels r) = List.length (parse_labels raw_labels) ->
  List.length (res_scores r) = List.length (parse_labels raw_labels) ->
  let run := on_click clf str_format texto raw_labels opts in
  result_of (unpack_zip_star (sorted_pairs [] []))
    = Raised (ValueError "not enough values to unpack (expected 2, got 0)")
  /\ ((run = ([st_warning msg_no_text], Stopped)
       \/ run = ([st_warning msg_no_labels], Stopped))
      \/ (parse_labels raw_labels <> []
          /\ sorted_pairs (res_labels r) (res_scores r) <> []
          /\ exists df,
               unpack_zip_star (sorted_pairs (res_labels r) (res_scores r))
                 = ([], Done (Etiqueta df, Puntaje df))
               /\ shape (res_labels r) (res_scores r) true = ([], Done df)
               /\ In (st_dataframe df) (trace run))).
Proof.
  intros Hsort Hclf Hlen1 Hlen2 run. split; [reflexivity|].
  destruct (str_eq_dec (strip texto) []) as [Hs|Hs].
  { left. left. apply on_click_no_text. exact Hs. }
  destruct (parse_labels raw_labels) as [|l ls] eqn:El.
  { left. right. apply on_click_no_labels; assumption. }
  right. split; [discriminate|].
  assert (Hzip : zip (res_labels r) (res_scores r) <> []).
  { destruct (res_labels r); [discriminate Hlen1|].
    destruct (res_scores r); [discriminate Hlen2|]. discriminate. }
  assert (Hout : sorted_pairs (res_labels r) (res_scores r) <> []).
  { intros E. pose proof (sorted_pairs_perm (res_labels r) (res_scores r)) as P.
    rewrite E in P. apply Permutation_sym, Permutation_nil in P. auto. }
  split; [exact Hout|].
  pose proof (shape_sorted_nonempty _ _ Hzip) as Hshape.
  set (df := mkDataFrame
                (map fst (sorted_pairs (res_labels r) (res_scores r)))
                (map snd (sorted_pairs (res_labels r) (res_scores r)))) in *.
  exists df. split; [|split; [exact Hshape|]].
  - subst df. cbn [Etiqueta Puntaje].
    destruct (sorted_pairs (res_labels r) (res_scores r)); [congruence|].
    reflexivity.
  - unfold run.
    rewrite (on_click_answered clf str_format texto raw_labels opts r df Hs).
    + cbn [trace fst]. simpl. auto.
    + rewrite El. discriminate.
    + rewrite El. exact Hclf.
    + rewrite Hsort. exact Hshape.
Qed.

Lemma zip_unpack_guarded_witness :
  let r := mkResult [lit "a"; lit "b"] [f_half; f_half] in
  let run := on_click clf_even format_append (lit "hola") (lit "a,b")
                      sidebar_defaults in
  sort_desc sidebar_defaults = true
  /\ clf_even (mkRequest (lit "hola") (parse_labels (lit "a,b")) true
                         (lit "Este texto trata sobre {}.")) = inr r
  /\ List.length (res_labels r) = List.length (parse_labels (lit "a,b"))
  /\ List.length (res_scores r) = List.length (parse_labels (lit "a,b"))
  /\ result_of (unpack_zip_star (sorted_pairs [] []))
     = Raised (ValueError "not enough values to unpack (expected 2, got 0)")
  /\ ((run = ([st_warning msg_no_text], Stopped)
       \/ run = ([st_warning msg_no_labels], Stopped))
      \/ (parse_labels (lit "a,b") <> []
          /\ sorted_pairs (res_labels r) (res_scores r) <> []
          /\ exists df,
               unpack_zip_star (sorted_pairs (res_labels r) (res_scores r))
                 = ([], Done (Etiqueta df, Puntaje df))
               /\ shape (res_labels r) (res_scores r) true = ([], Done df)
               /\ In (st_dataframe df) (trace run))).
Proof.
  intros r run. repeat (split; [reflexivity|]).
  apply (zip_unpack_guarded clf_even format_append (lit "hola") (lit "a,b")
           sidebar_defaults r); reflexivity.
Defined.

(* ===================================================================== *)
(** ** More on parse_labels                                               *)
(* ===================================================================== *)

Lemma split_app (sep : char) p s :
  split sep (p ++ sep :: s) = split sep p ++ split sep s.
Proof.
  induction p as [|c p IH]; simpl.
  - rewrite N.eqb_refl. reflexivity.
  - destruct (c =? sep); [rewrite IH; reflexivity|].
    rewrite IH. pose proof (split_not_nil sep p) as Hne.
    destruct (split sep p); [congruence | reflexivity].
Qed.

Lemma join_split (sep : char) s : join sep (split sep s) = s.
Proof.
  induction s as [|c s IH]; [reflexivity|]. simpl.
  pose proof (split_not_nil sep s) as Hne.
  destruct (N.eqb_spec c sep) as [->|Hc];
    destruct (split sep s) as [|q qs]; try congruence.
  - change (join sep ([] :: q :: qs)) with (sep :: join sep (q :: qs)).
    rewrite IH. reflexivity.
  - destruct qs as [|q' qs].
    + simpl in *. rewrite IH. reflexivity.
    + change (join sep ((c :: q) :: q' :: qs))
        with (c :: (q ++ sep :: join sep (q' :: qs))).
      change (join sep (q :: q' :: qs))
        with (q ++ sep :: join sep (q' :: qs)) in IH.
      rewrite IH. reflexivity.
Qed.

Lemma join_slice (sep : char) l p : In p l -> slice_of p (join sep l).
Proof.
  induction l as [|q l IH]; [intros []|]. intros Hin.
  destruct l as [|q' l].
  - destruct Hin as [->|[]]. exists [], []. simpl. now rewrite app_nil_r.
  - change (join sep (q :: q' :: l)) with (q ++ sep :: join sep (q' :: l)).
    destruct Hin as [->|Hin].
    + exists [], (sep :: join sep (q' :: l)). reflexivity.
    + destruct (IH Hin) as [pre [post E]]. rewrite E.
      exists (q ++ sep :: pre), post. rewrite <- app_assoc. reflexivity.
Qed.

Lemma lstrip_suffix s :
  exists pre, s = pre ++ lstrip s /\ forallb isspace pre = true.
Proof.
  induction s as [|c s [pre [E Hpre]]]; simpl.
  - exists []. split; reflexivity.
  - destruct (isspace c) eqn:Ec.
    + exists (c :: pre). simpl. rewrite Ec, Hpre, <- E. split; reflexivity.
    + exists []. split; reflexivity.
Qed.

Lemma strip_slice s :
  exists pre post,
    s = pre ++ strip s ++ post
    /\ forallb isspace pre = true /\ forallb isspace post = true.
Proof.
  destruct (lstrip_suffix s) as [pre [E Hpre]].
  destruct (lstrip_suffix (rev (lstrip s))) as [tsop [E' Hpost]].
  exists pre, (rev tsop). unfold strip, rstrip.
  split; [|split; [exact Hpre|]].
  - rewrite <- rev_app_distr, <- E', rev_involutive. exact E.
  - rewrite forallb_forall in Hpost |- *. intros c Hc.
    apply Hpost. apply in_rev. exact Hc.
Qed.

Lemma replace_app old new a b :
  replace old new (a ++ b) = replace old new a ++ replace old new b.
Proof. unfold replace. apply map_app. Qed.

Lemma parts_app (c : char) a b :
  is_separator c = true -> parts (a ++ c :: b) = parts a ++ parts b.
Proof.
  intros Hc. unfold parts. rewrite replace_app.
  assert (E : replace LF COMMA (c :: b) = COMMA :: replace LF COMMA b).
  { unfold is_separator in Hc. simpl.
    destruct (N.eqb_spec c LF); [reflexivity|].
    destruct (N.eqb_spec c COMMA); [subst; reflexivity | discriminate]. }
  rewrite E, split_app, map_app. reflexivity.
Qed.

(** X1: a comma or a newline between two texts separates them fully: the
    labels of [a], then those of [b]. *)
Theorem parse_labels_concat (a b : str) :
  parse_labels (a ++ COMMA :: b) = parse_labels a ++ parse_labels b
  /\ parse_labels (a ++ LF :: b) = parse_labels a ++ parse_labels b.
Proof.
  unfold parse_labels.
  split; rewrite parts_app by reflexivity; apply filter_app.
Qed.

(** X2: commas and newlines are interchangeable: turning every comma into
    a newline, or every newline into a comma, leaves the labels unchanged. *)
Theorem parse_labels_separators_interchangeable (raw : str) :
  parse_labels (replace COMMA LF raw) = parse_labels raw
  /\ parse_labels (replace LF COMMA raw) = parse_labels raw.
Proof.
  unfold parse_labels, parts, replace. split; rewrite map_map;
    do 3 f_equal; apply map_ext; intros c;
    destruct (N.eqb_spec c COMMA); subst; try reflexivity;
    destruct (N.eqb_spec c LF); subst; try reflexivity;
    repeat match goal with
           | |- context [N.eqb ?a ?b] => destruct (N.eqb_spec a b); subst
           end;
    try reflexivity; try discriminate; congruence.
Qed.

Lemma filter_truthy_nil l :
  filter truthy l = [] <-> Forall (fun p : str => p = []) l.
Proof.
  induction l as [|p l IH]; simpl.
  - split; [constructor | reflexivity].
  - destruct p as [|c p]; simpl.
    + rewrite IH. split; [constructor; auto | intros H; inversion H; auto].
    + split; [discriminate | intros H; inversion H; discriminate].
Qed.

Lemma strip_nil_iff s : strip s = [] <-> forallb isspace s = true.
Proof.
  split; [|apply strip_blank].
  intros H. destruct (forallb isspace s) eqn:E; [reflexivity|].
  exfalso. exact (strip_nonblank s E H).
Qed.

Lemma parse_labels_nil_iff raw :
  parse_labels raw = [] <-> forallb blank_or_comma raw = true.
Proof.
  unfold parse_labels, parts. rewrite filter_truthy_nil, Forall_map.
  rewrite forallb_forall, Forall_forall. split.
  - intros H c Hc. unfold blank_or_comma.
    destruct (N.eqb_spec c COMMA); [apply orb_true_r|].
    destruct (N.eqb_spec c LF) as [->|Hlf]; [reflexivity|].
    assert (Hin : In c (replace LF COMMA raw)).
    { unfold replace. apply in_map_iff. exists c.
      destruct (N.eqb_spec c LF); [contradiction | auto]. }
    rewrite <- (join_split COMMA (replace LF COMMA raw)) in Hin.
    apply join_chars in Hin. destruct Hin as [->|[q [Hq Hcq]]]; [congruence|].
    specialize (H q Hq). apply strip_nil_iff in H.
    rewrite forallb_forall in H. rewrite (H c Hcq). reflexivity.
  - intros H q Hq. apply strip_nil_iff. apply forallb_forall. intros c Hc.
    pose proof (split_no_sep COMMA (replace LF COMMA raw)) as Hns.
    rewrite Forall_forall in Hns. specialize (Hns q Hq).
    apply (split_chars COMMA _ q c Hq) in Hc as Hin.
    apply replace_chars in Hin. destruct Hin as [->|Hin]; [contradiction|].
    specialize (H c Hin). unfold blank_or_comma in H.
    destruct (N.eqb_spec c COMMA) as [E|_]; [rewrite E in Hc; contradiction|].
    rewrite orb_false_r in H. exact H.
Qed.

(** X3: no label is parsed exactly when the text consists of whitespace
    and commas only. *)
Theorem parse_labels_empty_iff (raw : str) :
  parse_labels raw = [] <-> forallb blank_or_comma raw = true.
Proof. apply parse_labels_nil_iff. Qed.

Lemma split_length raw :
  List.length (split COMMA (replace LF COMMA raw))
  = S (List.length (filter is_separator raw)).
Proof.
  induction raw as [|c raw IH]; [reflexivity|].
  change (replace LF COMMA (c :: raw))
    with ((if c =? LF then COMMA else c) :: replace LF COMMA raw).
  pose proof (split_not_nil COMMA (replace LF COMMA raw)) as Hne.
  unfold is_separator in *. cbn [split filter].
  destruct (N.eqb_spec c LF) as [->|Hlf].
  - cbn. rewrite IH. reflexivity.
  - destruct (N.eqb_spec c COMMA) as [->|Hc]; cbn [orb].
    + cbn. rewrite IH. reflexivity.
    + destruct (split COMMA (replace LF COMMA raw)); [congruence|].
      exact IH.
Qed.

(** X4: there is at most one label more than there are commas and
    newlines in the text. *)
Theorem parse_labels_count_bound (raw : str) :
  (List.length (parse_labels raw)
   <= S (List.length (filter is_separator raw)))%nat.
Proof.
  unfold parse_labels. rewrite <- split_length.
  etransitivity; [apply filter_length_le|].
  unfold parts. rewrite length_map. reflexivity.
Qed.

(** X5: every label is a run of consecutive characters of the text, taken
    as it stands: nothing inside a label is altered. *)
Theorem parse_labels_slices (raw p : str) :
  In p (parse_labels raw) -> slice_of p raw.
Proof.
  intros Hp.
  pose proof (parse_labels_no_separator raw) as Hsep.
  rewrite Forall_forall in Hsep. destruct (Hsep p Hp) as [Hcomma _].
  apply parse_labels_In in Hp. destruct Hp as [Hp _].
  unfold parts in Hp. apply in_map_iff in Hp. destruct Hp as [q [<- Hq]].
  destruct (strip_slice q) as [w1 [w2 [Eq _]]].
  destruct (join_slice COMMA _ q Hq) as [pre [post E]].
  rewrite join_split in E. rewrite Eq in E.
  unfold replace in E.
  replace (pre ++ (w1 ++ strip q ++ w2) ++ post)
    with ((pre ++ w1) ++ strip q ++ (w2 ++ post)) in E
    by (rewrite <- !app_assoc; reflexivity).
  apply map_eq_app in E. destruct E as [r1 [r23 [-> [_ E]]]].
  apply map_eq_app in E. destruct E as [r2 [r3 [-> [E _]]]].
  exists r1, r3. do 2 f_equal.
  rewrite <- E. rewrite <- (map_id r2) at 1. apply map_ext_in.
  intros c Hc. destruct (N.eqb_spec c LF) as [->|]; [|reflexivity].
  exfalso. apply Hcomma. rewrite <- E. apply in_map_iff.
  exists LF. split; [reflexivity | exact Hc].
Qed.

Lemma parse_labels_slices_witness :
  In (lit "new york") (parse_labels (lit "paris,  new york ,rome"))
  /\ slice_of (lit "new york") (lit "paris,  new york ,rome").
Proof.
  split; [vm_compute; auto|].
  apply (parse_labels_slices (lit "paris,  new york ,rome") (lit "new york")).
  vm_compute. auto.
Defined.

(* ===================================================================== *)
(** ** More on the shaping step                                           *)
(* ===================================================================== *)

Section SortedInput.
Context {A K : Type}.
Variable lt : K -> K -> bool.
Variable key : A -> K.

Lemma insort_last x acc :
  Forall (fun y => lt (key x) (key y) = false) acc ->
  insort lt key x acc = acc ++ [x].
Proof.
  induction 1 as [|y acc Hy _ IH]; simpl; [reflexivity|].
  rewrite Hy, IH. reflexivity.
Qed.

Lemma StronglySorted_before (R : A -> A -> Prop) acc x l :
  StronglySorted R (acc ++ x :: l) -> Forall (fun y => R y x) acc.
Proof.
  induction acc as [|a acc IH]; simpl; intros H; [constructor|].
  inversion H as [|? ? Hs Ha]; subst. constructor; [|apply IH; exact Hs].
  rewrite Forall_forall in Ha. apply Ha. apply in_elt.
Qed.

Lemma sort_asc_sorted_acc l acc :
  StronglySorted (fun a b => lt (key b) (key a) = false) (acc ++ l) ->
  fold_left (fun acc x => insort lt key x acc) l acc = acc ++ l.
Proof.
  revert acc. induction l as [|x l IH]; intros acc H; simpl.
  - symmetry. apply app_nil_r.
  - rewrite insort_last by (apply (StronglySorted_before _ _ _ _ H)).
    rewrite IH; rewrite <- app_assoc; [reflexivity | exact H].
Qed.

(** A list already in descending key order comes back unchanged. *)
Lemma sorted_reverse_fixed l :
  StronglySorted (fun a b => lt (key a) (key b) = false) l ->
  sorted lt key l true = l.
Proof.
  intros H. unfold sorted, sort_asc.
  rewrite (sort_asc_sorted_acc (rev l) []).
  - apply rev_involutive.
  - simpl. apply (StronglySorted_rev _ _ H).
Qed.

End SortedInput.

Lemma SFleb_true_not_nan x y :
  SFleb x y = true -> is_nan x = false /\ is_nan y = false.
Proof.
  destruct x, y; try discriminate; split; reflexivity.
Qed.

Lemma non_increasing_no_ltb (l : list (str * float)) :
  non_increasing l ->
  StronglySorted (fun a b => SFltb (snd a) (snd b) = false) l.
Proof.
  unfold non_increasing. induction 1 as [|p l Hs IH Hp]; constructor.
  - exact IH.
  - eapply Forall_impl; [|exact Hp]. intros q Hq. cbv beta in Hq.
    destruct (SFleb_true_not_nan _ _ Hq) as [Hnq Hnp].
    apply SFleb_not_ltb; assumption.
Qed.

Lemma zip_scores_not_nan (ls : list str) (ss : list float) :
  Forall (fun s => is_nan s = false) ss ->
  Forall (fun p => is_nan (snd p) = false) (zip ls ss).
Proof.
  intros H. rewrite Forall_forall in H |- *. intros [l s] Hin.
  apply in_combine_r in Hin. apply H. exact Hin.
Qed.

Lemma sorted_pairs_non_increasing ls ss :
  Forall (fun s => is_nan s = false) ss ->
  non_increasing (sorted_pairs ls ss).
Proof.
  intros Hnan. apply (zip_scores_not_nan ls) in Hnan.
  destruct (sorted_reverse_spec SFltb (@snd str float)
              (fun x => is_nan x = false)
              SFltb_irrefl SFltb_trans SFltb_incomp (zip ls ss) Hnan)
    as [Hsorted [Hperm _]].
  unfold non_increasing, sorted_pairs.
  apply (StronglySorted_weaken
           (fun a b => SFltb (snd a) (snd b) = false) _
           (fun p : str * float => is_nan (snd p) = false));
    [| |exact Hsorted].
  - intros a b Ha Hb Hab. apply SFleb_not_ltb; assumption.
  - eapply Permutation_Forall; eassumption.
Qed.

(** X6: when the scores already never increase down the list (what the
    source comment says of multi_label=False), the sort leaves the pairs
    as they are, so the table is the same with [sort_desc] on or off. *)
Theorem shape_sorted_input_unchanged (pairs : list (str * float)) :
  non_increasing pairs ->
  sorted_pairs (map fst pairs) (map snd pairs) = pairs
  /\ (pairs <> [] ->
      shape (map fst pairs) (map snd pairs) true
      = shape (map fst pairs) (map snd pairs) false).
Proof.
  intros H.
  assert (E : sorted_pairs (map fst pairs) (map snd pairs) = pairs).
  { unfold sorted_pairs. rewrite zip_unzip.
    apply sorted_reverse_fixed. apply non_increasing_no_ltb. exact H. }
  split; [exact E|]. intros Hne.
  rewrite shape_sorted_nonempty by (rewrite zip_unzip; exact Hne).
  rewrite E. unfold shape, ret, bind. cbn [fst snd].
  rewrite to_df_aligned. reflexivity.
Qed.

Lemma shape_sorted_input_unchanged_witness :
  let pairs := [(lit "b", f_three_quarters); (lit "a", f_half);
                (lit "c", f_half); (lit "d", f_quarter)] in
  non_increasing pairs
  /\ sorted_pairs (map fst pairs) (map snd pairs) = pairs
  /\ (pairs <> [] ->
      shape (map fst pairs) (map snd pairs) true
      = shape (map fst pairs) (map snd pairs) false).
Proof.
  intros pairs.
  assert (H : non_increasing pairs)
    by (unfold non_increasing; repeat constructor).
  split; [exact H|].
  exact (shape_sorted_input_unchanged pairs H).
Defined.

(** X7: sorting is idempotent: for scores that are not NaN, sorting the
    sorted pairs again changes nothing. *)
Theorem sorted_pairs_idempotent (ls : list str) (ss : list float) :
  Forall (fun s => is_nan s = false) ss ->
  sorted_pairs (map fst (sorted_pairs ls ss)) (map snd (sorted_pairs ls ss))
  = sorted_pairs ls ss.
Proof.
  intros Hnan. unfold sorted_pairs at 1. rewrite zip_unzip.
  apply sorted_reverse_fixed. apply non_increasing_no_ltb.
  apply sorted_pairs_non_increasing. exact Hnan.
Qed.

Lemma sorted_pairs_idempotent_witness :
  Forall (fun s => is_nan s = false) (map snd example_pairs)
  /\ sorted_pairs
       (map fst (sorted_pairs (map fst example_pairs) (map snd example_pairs)))
       (map snd (sorted_pairs (map fst example_pairs) (map snd example_pairs)))
     = sorted_pairs (map fst example_pairs) (map snd example_pairs).
Proof.
  split; [repeat constructor|].
  apply (sorted_pairs_idempotent (map fst example_pairs)
           (map snd example_pairs)).
  repeat constructor.
Defined.

Lemma zip_nil_iff {A B} (a : list A) (b : list B) :
  zip a b = [] <-> a = [] \/ b = [].
Proof.
  destruct a, b; simpl; split; auto; try discriminate.
  intros [H|H]; discriminate.
Qed.

Lemma zip_length {A B} (a : list A) (b : list B) :
  List.length (zip a b) = Nat.min (List.length a) (List.length b).
Proof. apply length_combine. Qed.

Lemma shape_sorted_empty ls ss :
  zip ls ss = [] ->
  shape ls ss true
  = ([], Raised (ValueError "not enough values to unpack (expected 2, got 0)")).
Proof.
  intros E. unfold shape, sorted_pairs. rewrite E. reflexivity.
Qed.

Lemma shape_unsorted_raise ls ss :
  List.length ls <> List.length ss ->
  shape ls ss false
  = ([], Raised (ValueError "All arrays must be of the same length")).
Proof.
  intros H. unfold shape, ret, bind, to_df. cbn [fst snd].
  apply Nat.eqb_neq in H. rewrite H. reflexivity.
Qed.

Lemma shape_unsorted_ok ls ss :
  List.length ls = List.length ss ->
  shape ls ss false = ([], Done (mkDataFrame ls ss)).
Proof.
  intros H. unfold shape, ret, bind, to_df. cbn [fst snd].
  rewrite H, Nat.eqb_refl. reflexivity.
Qed.

(** X8: when the shaping step fails. With [sort_desc] off it builds the
    table exactly when there are as many labels as scores, and raises
    otherwise. With [sort_desc] on it raises exactly when one of the two
    lists is empty; otherwise surplus labels or scores are dropped without
    notice and the table has as many rows as the shorter list. *)
Theorem shape_failure_modes (ls : list str) (ss : list float) :
  (List.length ls = List.length ss ->
   shape ls ss false = ([], Done (mkDataFrame ls ss)))
  /\ (List.length ls <> List.length ss ->
      shape ls ss false
      = ([], Raised (ValueError "All arrays must be of the same length")))
  /\ (ls = [] \/ ss = [] ->
      shape ls ss true
      = ([], Raised
               (ValueError "not enough values to unpack (expected 2, got 0)")))
  /\ (ls <> [] -> ss <> [] ->
      exists df,
        shape ls ss true = ([], Done df)
        /\ Permutation (zip ls ss) (rows df)
        /\ List.length (rows df)
           = Nat.min (List.length ls) (List.length ss)).
Proof.
  split; [apply shape_unsorted_ok|]. split; [apply shape_unsorted_raise|].
  split.
  - intros H. apply shape_sorted_empty. apply zip_nil_iff. exact H.
  - intros H1 H2.
    assert (Hz : zip ls ss <> []) by (rewrite zip_nil_iff; tauto).
    eexists. split; [apply shape_sorted_nonempty; exact Hz|].
    unfold rows. cbn [Etiqueta Puntaje]. rewrite zip_unzip.
    split; [apply sorted_pairs_perm|].
    rewrite <- (Permutation_length (sorted_pairs_perm ls ss)).
    apply zip_length.
Qed.

Lemma shape_cases ls ss b :
  (exists df, shape ls ss b = ([], Done df))
  \/ (exists e, shape ls ss b = ([], Raised e)).
Proof.
  destruct b.
  - destruct (zip ls ss) as [|p l] eqn:E.
    + right. eexists. apply shape_sorted_empty. exact E.
    + left. eexists. apply shape_sorted_nonempty. rewrite E. discriminate.
  - destruct (Nat.eq_dec (List.length ls) (List.length ss)) as [E|E].
    + left. eexists. apply shape_unsorted_ok. exact E.
    + right. eexists. apply shape_unsorted_raise. exact E.
Qed.

Lemma shape_done ls ss b df :
  shape ls ss b = ([], Done df) ->
  Permutation (zip ls ss) (rows df)
  /\ (b = true -> rows df = sorted_pairs ls ss)
  /\ (b = false -> Etiqueta df = ls /\ Puntaje df = ss
                   /\ List.length ls = List.length ss).
Proof.
  intros H. destruct b.
  - destruct (zip ls ss) as [|p l] eqn:E.
    + rewrite (shape_sorted_empty ls ss E) in H. discriminate.
    + rewrite shape_sorted_nonempty in H by (rewrite E; discriminate).
      injection H as <-. unfold rows. cbn [Etiqueta Puntaje].
      rewrite zip_unzip.
      split; [rewrite <- E; apply sorted_pairs_perm|].
      split; [reflexivity | discriminate].
  - destruct (Nat.eq_dec (List.length ls) (List.length ss)) as [E|E].
    + rewrite (shape_unsorted_ok ls ss E) in H. injection H as <-.
      split; [reflexivity|]. split; [discriminate | auto].
    + rewrite (shape_unsorted_raise ls ss E) in H. discriminate.
Qed.

(* ===================================================================== *)
(** ** Every way a click can end                                          *)
(* ===================================================================== *)

Section ClickFacts.
Variable clf : ClassificationRequest -> PyException + ClassificationResult.
Variable str_format : str -> str -> PyException + str.
Variables texto raw_labels : str.
Variable opts : Options.

Let request : ClassificationRequest :=
  mkRequest texto (parse_labels raw_labels) (multi_label opts)
            (hypothesis_template opts).
Let run : M unit := on_click clf str_format texto raw_labels opts.
Let shown (df : DataFrame) : list event :=
  [clf_call request; st_subheader msg_results; st_dataframe df;
   st_subheader msg_chart; st_bar_chart (Etiqueta df) (Puntaje df)].

Lemma on_click_shape_raised r e :
  strip texto <> [] -> parse_labels raw_labels <> [] ->
  clf request = inr r ->
  shape (res_labels r) (res_scores r) (sort_desc opts) = ([], Raised e) ->
  run = ([clf_call request], Raised e).
Proof.
  intros Ht Hl Hr Hs. unfold run, on_click, call_clf. fold request.
  rewrite Hr.
  destruct (strip texto); [congruence|].
  destruct (parse_labels raw_labels); [congruence|].
  cbn [truthy negb bind ret emit try_except app]. rewrite Hs. reflexivity.
Qed.

Lemma on_click_cases :
  (forallb isspace texto = true
   /\ run = ([st_warning msg_no_text], Stopped))
  \/ (forallb isspace texto = false /\ parse_labels raw_labels = []
      /\ run = ([st_warning msg_no_labels], Stopped))
  \/ (forallb isspace texto = false /\ parse_labels raw_labels <> []
      /\ ((exists e,
             clf request = inl e
             /\ run = ([clf_call request;
                        st_error (msg_error_prefix ++ exc_str e)], Stopped))
          \/ (exists r e,
                clf request = inr r
                /\ shape (res_labels r) (res_scores r) (sort_desc opts)
                   = ([], Raised e)
                /\ run = ([clf_call request], Raised e))
          \/ (exists r df e,
                clf request = inr r
                /\ shape (res_labels r) (res_scores r) (sort_desc opts)
                   = ([], Done df)
                /\ str_format (hypothesis_template opts) (lit "etiqueta")
                   = inl e
                /\ run = (shown df, Raised e))
          \/ (exists r df h,
                clf request = inr r
                /\ shape (res_labels r) (res_scores r) (sort_desc opts)
                   = ([], Done df)
                /\ str_format (hypothesis_template opts) (lit "etiqueta")
                   = inr h
                /\ run = (shown df ++ [st_info (msg_info h)], Done tt)))).
Proof.
  destruct (forallb isspace texto) eqn:Et.
  { left. split; [reflexivity|].
    apply on_click_no_text. apply strip_blank. exact Et. }
  right. pose proof (strip_nonblank texto Et) as Hs.
  destruct (list_eq_dec str_eq_dec (parse_labels raw_labels) []) as [El|El].
  { left. repeat split; [exact El|]. apply on_click_no_labels; assumption. }
  right. repeat split; [exact El|].
  destruct (clf request) as [e|r] eqn:Ec.
  { left. exists e. split; [reflexivity|].
    apply on_click_raised; assumption. }
  right.
  destruct (shape_cases (res_labels r) (res_scores r) (sort_desc opts))
    as [[df Hdf]|[e He]].
  - right.
    pose proof (on_click_answered clf str_format texto raw_labels opts r df
                  Hs El Ec Hdf) as Hrun.
    cbv zeta in Hrun. unfold format_template in Hrun.
    destruct (str_format (hypothesis_template opts) (lit "etiqueta"))
      as [e|h] eqn:Ef.
    + left. exists r, df, e. repeat split; try assumption.
    + right. exists r, df, h. repeat split; try assumption.
  - left. exists r, e. repeat split; try assumption.
    apply (on_click_shape_raised r e); assumption.
Qed.

End ClickFacts.

Ltac click_cases clf fmt texto raw opts :=
  destruct (on_click_cases clf fmt texto raw opts)
    as [[?Ht ?Hrun]
       |[[?Ht [?Hl ?Hrun]]
        |[?Ht [?Hl [[?e [?Hc ?Hrun]]
                   |[[?r [?e [?Hc [?Hs ?Hrun]]]]
                    |[[?r [?df [?e [?Hc [?Hs [?Hf ?Hrun]]]]]]
                     |[?r [?df [?h [?Hc [?Hs [?Hf ?Hrun]]]]]]]]]]]]].

(** X9: a click ends in one of six ways, each with its own display:
    a warning for blank text; a warning for no labels; the pipeline call
    and an error message when the pipeline raises; the pipeline call alone
    and an uncaught exception when shaping fails; the table and chart and
    an uncaught exception when the template cannot be formatted; or the
    table, the chart and the explanatory note. *)
Theorem on_click_outcomes
    (clf : ClassificationRequest -> PyException + ClassificationResult)
    (str_format : str -> str -> PyException + str)
    (texto raw_labels : str) (opts : Options) :
  let req := mkRequest texto (parse_labels raw_labels) (multi_label opts)
                       (hypothesis_template opts) in
  let run := on_click clf str_format texto raw_labels opts in
  let shown df :=
    [clf_call req; st_subheader msg_results; st_dataframe df;
     st_subheader msg_chart; st_bar_chart (Etiqueta df) (Puntaje df)] in
  (forallb isspace texto = true
   /\ run = ([st_warning msg_no_text], Stopped))
  \/ (forallb isspace texto = false /\ parse_labels raw_labels = []
      /\ run = ([st_warning msg_no_labels], Stopped))
  \/ (forallb isspace texto = false /\ parse_labels raw_labels <> []
      /\ ((exists e,
             clf req = inl e
             /\ run = ([clf_call req;
                        st_error (msg_error_prefix ++ exc_str e)], Stopped))
          \/ (exists r e,
                clf req = inr r
                /\ shape (res_labels r) (res_scores r) (sort_desc opts)
                   = ([], Raised e)
                /\ run = ([clf_call req], Raised e))
          \/ (exists r df e,
                clf req = inr r
                /\ shape (res_labels r) (res_scores r) (sort_desc opts)
                   = ([], Done df)
                /\ str_format (hypothesis_template opts) (lit "etiqueta")
                   = inl e
                /\ run = (shown df, Raised e))
          \/ (exists r df h,
                clf req = inr r
                /\ shape (res_labels r) (res_scores r) (sort_desc opts)
                   = ([], Done df)
                /\ str_format (hypothesis_template opts) (lit "etiqueta")
                   = inr h
                /\ run = (shown df ++ [st_info (msg_info h)], Done tt)))).
Proof. exact (on_click_cases clf str_format texto raw_labels opts). Qed.

(** X10: a click calls the pipeline at most once, and only with the text
    as typed (not trimmed), the parsed labels, and the sidebar's
    multi-label flag and template unchanged. *)
Theorem clf_called_once_verbatim
    (clf : ClassificationRequest -> PyException + ClassificationResult)
    (str_format : str -> str -> PyException + str)
    (texto raw_labels : str) (opts : Options) :
  let run := on_click clf str_format texto raw_labels opts in
  (List.length (filter is_clf_call (trace run)) <= 1)%nat
  /\ forall req,
       In (clf_call req) (trace run) ->
       sequences req = texto
       /\ candidate_labels req = parse_labels raw_labels
       /\ req_multi_label req = multi_label opts
       /\ req_hypothesis_template req = hypothesis_template opts.
Proof.
  intros run. subst run.
  click_cases clf str_format texto raw_labels opts; rewrite Hrun;
    cbn [trace fst app filter is_clf_call List.length];
    (split; [lia|]); intros req Hin; cbn [In] in Hin;
    repeat (destruct Hin as [Hin|Hin]; try discriminate Hin);
    try contradiction; injection Hin as <-; repeat split.
Qed.

(** X11: a table is displayed only for an answer of the pipeline: its rows
    are the answer's (label, score) pairs (all of them when the answer is
    aligned), in the answer's own order when [sort_desc] is off, and the
    bar chart shows the same two columns. *)
Theorem displayed_table_from_pipeline
    (clf : ClassificationRequest -> PyException + ClassificationResult)
    (str_format : str -> str -> PyException + str)
    (texto raw_labels : str) (opts : Options) (df : DataFrame) :
  let req := mkRequest texto (parse_labels raw_labels) (multi_label opts)
                       (hypothesis_template opts) in
  let run := on_click clf str_format texto raw_labels opts in
  In (st_dataframe df) (trace run) ->
  exists r,
    clf req = inr r
    /\ Permutation (zip (res_labels r) (res_scores r)) (rows df)
    /\ (sort_desc opts = false ->
        Etiqueta df = res_labels r /\ Puntaje df = res_scores r)
    /\ In (st_bar_chart (Etiqueta df) (Puntaje df)) (trace run).
Proof.
  intros req run Hin. subst req run.
  click_cases clf str_format texto raw_labels opts; rewrite Hrun in *;
    cbn [trace fst app In] in Hin |- *;
    repeat (destruct Hin as [Hin|Hin]; try discriminate Hin);
    try contradiction; injection Hin as <-; exists r;
    destruct (shape_done _ _ _ _ Hs) as [Hp [_ Hoff]];
    (split; [exact Hc|]); (split; [exact Hp|]);
    (split; [intros Eoff; destruct (Hoff Eoff) as [? [? _]]; auto|]);
    tauto.
Qed.

Lemma displayed_table_from_pipeline_witness :
  let df := mkDataFrame [lit "a"; lit "b"] [f_half; f_half] in
  let run := on_click clf_even format_append (lit "hola") (lit "a,b")
                      sidebar_defaults in
  In (st_dataframe df) (trace run)
  /\ exists r,
       clf_even (mkRequest (lit "hola") (parse_labels (lit "a,b")) true
                           (lit "Este texto trata sobre {}.")) = inr r
       /\ Permutation (zip (res_labels r) (res_scores r)) (rows df)
       /\ (sort_desc sidebar_defaults = false ->
           Etiqueta df = res_labels r /\ Puntaje df = res_scores r)
       /\ In (st_bar_chart (Etiqueta df) (Puntaje df)) (trace run).
Proof.
  intros df run.
  assert (Hin : In (st_dataframe df) (trace run))
    by (right; right; left; reflexivity).
  split; [exact Hin|].
  exact (displayed_table_from_pipeline clf_even format_append (lit "hola")
           (lit "a,b") sidebar_defaults df Hin).
Defined.

(** X12: with [sort_desc] on and an answer whose scores are not NaN, the
    table that a click displays has scores that never increase down the
    rows. *)
Theorem displayed_table_sorted
    (clf : ClassificationRequest -> PyException + ClassificationResult)
    (str_format : str -> str -> PyException + str)
    (texto raw_labels : str) (opts : Options) (df : DataFrame) :
  let req := mkRequest texto (parse_labels raw_labels) (multi_label opts)
                       (hypothesis_template opts) in
  let run := on_click clf str_format texto raw_labels opts in
  sort_desc opts = true ->
  (forall r, clf req = inr r ->
             Forall (fun s => is_nan s = false) (res_scores r)) ->
  In (st_dataframe df) (trace run) ->
  non_increasing (rows df).
Proof.
  intros req run Hon Hnan Hin. subst req run.
  click_cases clf str_format texto raw_labels opts; rewrite Hrun in *;
    cbn [trace fst app In] in Hin;
    repeat (destruct Hin as [Hin|Hin]; try discriminate Hin);
    try contradiction; injection Hin as <-;
    rewrite Hon in Hs; destruct (shape_done _ _ _ _ Hs) as [_ [Hrows _]];
    rewrite (Hrows eq_refl); apply sorted_pairs_non_increasing;
    apply Hnan; exact Hc.
Qed.

Lemma displayed_table_sorted_witness :
  let df := mkDataFrame [lit "b"; lit "a"; lit "c"]
                        [f_half; f_quarter; f_quarter] in
  let run := on_click clf_alternating format_append (lit "hola")
                      (lit "a,b,c") sidebar_defaults in
  sort_desc sidebar_defaults = true
  /\ (forall r,
        clf_alternating
          (mkRequest (lit "hola") (parse_labels (lit "a,b,c")) true
                     (lit "Este texto trata sobre {}.")) = inr r ->
        Forall (fun s => is_nan s = false) (res_scores r))
  /\ In (st_dataframe df) (trace run)
  /\ non_increasing (rows df).
Proof.
  intros df run.
  assert (Hnan : forall r,
             clf_alternating
               (mkRequest (lit "hola") (parse_labels (lit "a,b,c")) true
                          (lit "Este texto trata sobre {}.")) = inr r ->
             Forall (fun s => is_nan s = false) (res_scores r)).
  { intros r H. injection H as <-. repeat constructor. }
  assert (Hin : In (st_dataframe df) (trace run))
    by (right; right; left; reflexivity).
  split; [reflexivity|]. split; [exact Hnan|]. split; [exact Hin|].
  exact (displayed_table_sorted clf_alternating format_append (lit "hola")
           (lit "a,b,c") sidebar_defaults df eq_refl Hnan Hin).
Defined.

(** X13: an error message is displayed exactly when validation passed and
    the pipeline raised, and then it is the fixed prefix followed by the
    exception's text; failures of the shaping step or of the template are
    never reported this way. *)
Theorem st_error_iff_pipeline_raised
    (clf : ClassificationRequest -> PyException + ClassificationResult)
    (str_format : str -> str -> PyException + str)
    (texto raw_labels : str) (opts : Options) (msg : str) :
  let req := mkRequest texto (parse_labels raw_labels) (multi_label opts)
                       (hypothesis_template opts) in
  let run := on_click clf str_format texto raw_labels opts in
  In (st_error msg) (trace run)
  <-> forallb isspace texto = false /\ parse_labels raw_labels <> []
      /\ exists e, clf req = inl e /\ msg = msg_error_prefix ++ exc_str e.
Proof.
  intros req run. subst req run. split.
  - intros Hin.
    click_cases clf str_format texto raw_labels opts; rewrite Hrun in Hin;
      cbn [trace fst app In] in Hin;
      repeat (destruct Hin as [Hin|Hin]; try discriminate Hin);
      try contradiction.
    injection Hin as <-. repeat split; try assumption. exists e. auto.
  - intros [Ht [Hl [e [Hc ->]]]].
    rewrite (on_click_raised clf str_format texto raw_labels opts e
               (strip_nonblank _ Ht) Hl Hc).
    right. left. reflexivity.
Qed.

(** X14: which warning a click shows. The text warning appears exactly
    when the text is empty or all whitespace, whatever the labels; the
    label warning appears exactly when the text is not blank and the label
    box holds nothing but whitespace and commas. *)
Theorem warnings_iff
    (clf : ClassificationRequest -> PyException + ClassificationResult)
    (str_format : str -> str -> PyException + str)
    (texto raw_labels : str) (opts : Options) :
  let run := on_click clf str_format texto raw_labels opts in
  (In (st_warning msg_no_text) (trace run)
   <-> forallb isspace texto = true)
  /\ (In (st_warning msg_no_labels) (trace run)
      <-> forallb isspace texto = false
          /\ forallb blank_or_comma raw_labels = true).
Proof.
  intros run. subst run. rewrite <- parse_labels_nil_iff.
  split; split.
  - intros Hin.
    click_cases clf str_format texto raw_labels opts; rewrite Hrun in Hin;
      cbn [trace fst app In] in Hin;
      repeat (destruct Hin as [Hin|Hin]; try discriminate Hin);
      try contradiction; assumption.
  - intros Ht.
    rewrite (on_click_no_text clf str_format texto raw_labels opts
               (strip_blank _ Ht)).
    left. reflexivity.
  - intros Hin.
    click_cases clf str_format texto raw_labels opts; rewrite Hrun in Hin;
      cbn [trace fst app In] in Hin;
      repeat (destruct Hin as [Hin|Hin]; try discriminate Hin);
      try contradiction; split; assumption.
  - intros [Ht Hl].
    rewrite (on_click_no_labels clf str_format texto raw_labels opts
               (strip_nonblank _ Ht) Hl).
    left. reflexivity.
Qed.

(** X15: the footer at the end of the page is rendered exactly when the
    button was not clicked or the click ran to completion: after either
    warning, after a reported pipeline error, and after an uncaught
    exception, the script has ended before reaching it. *)
Theorem footer_iff_completed
    (clf : ClassificationRequest -> PyException + ClassificationResult)
    (str_format : str -> str -> PyException + str)
    (clicked : bool) (texto raw_labels : str) (opts : Options) :
  let req := mkRequest texto (parse_labels raw_labels) (multi_label opts)
                       (hypothesis_template opts) in
  In (st_caption msg_footer)
     (fst (script_tail clf str_format clicked texto raw_labels opts))
  <-> clicked = false
      \/ (forallb isspace texto = false /\ parse_labels raw_labels <> []
          /\ exists r df h,
               clf req = inr r
               /\ shape (res_labels r) (res_scores r) (sort_desc opts)
                  = ([], Done df)
               /\ str_format (hypothesis_template opts) (lit "etiqueta")
                  = inr h).
Proof.
  intros req. subst req. unfold script_tail.
  destruct clicked.
  - click_cases clf str_format texto raw_labels opts; rewrite Hrun;
      cbn [fst map app In]; split.
    all: try (intros Hin;
              repeat (destruct Hin as [Hin|Hin]; try discriminate Hin);
              contradiction).
    all: try (intros [Hf'|[Ht' [Hl' [r' [df' [h' [Hc' [Hs' Hf']]]]]]]];
              [discriminate Hf' | congruence]).
    + intros _. right. repeat split; try assumption.
      exists r, df, h. auto.
    + intros _. do 7 right. left. reflexivity.
  - cbn. split; [intros _; left; reflexivity|].
    intros _. right. left. reflexivity.
Qed.

(** Two concrete runs. A pipeline answer with one score too few is cut to
    the shorter column when [sort_desc] is on, and makes the table
    constructor raise, uncaught, when it is off. A template that cannot be
    formatted raises after the table and the chart were shown. *)
Example misaligned_answer_runs :
  on_click clf_short format_append (lit "hola") (lit "a,b") sidebar_defaults
  = ([clf_call (mkRequest (lit "hola") [lit "a"; lit "b"] true
                          (lit "Este texto trata sobre {}."));
      st_subheader msg_results;
      st_dataframe (mkDataFrame [lit "a"] [f_half]);
      st_subheader msg_chart;
      st_bar_chart [lit "a"] [f_half];
      st_info (msg_info (lit "Este texto trata sobre {}.etiqueta"))],
     Done tt)
  /\ on_click clf_short format_append (lit "hola") (lit "a,b")
              (mkOptions true (lit "Este texto trata sobre {}.") false)
     = ([clf_call (mkRequest (lit "hola") [lit "a"; lit "b"] true
                             (lit "Este texto trata sobre {}."))],
        Raised (ValueError "All arrays must be of the same length")).
Proof. split; vm_compute; reflexivity. Qed.

Example failing_template_run :
  on_click clf_even format_failing (lit "hola") (lit "a") sidebar_defaults
  = ([clf_call (mkRequest (lit "hola") [lit "a"] true
                          (lit "Este texto trata sobre {}."));
      st_subheader msg_results;
      st_dataframe (mkDataFrame [lit "a"] [f_half]);
      st_subheader msg_chart;
      st_bar_chart [lit "a"] [f_half]],
     Raised (mkException "IndexError"
               (lit "Replacement index 1 out of range for positional args tuple"))).
Proof. vm_compute. reflexivity. Qed.
